(** * vibe-check: the history scanner of [src/historyScanner.ts]

    A shallow embedding of [HistoryScanner] (path decoding, project-name
    inference, the scan over snapshot folders, the cache and its queries)
    and the properties of the index it builds, followed by its callers:
    [FileRecovery.getRelativePath], the tree provider of
    [src/recoveryTreeProvider.ts], version navigation in
    [src/previewPanel.ts] and the project picker of [src/extension.ts].

    Conventions of the embedding.
    - A JavaScript string is the list of its UTF-16 code units.
    - A JSON time stamp is a number: a rational or an infinity.  The
      time value of the [Date] made from it is an integer, or absent for
      an Invalid Date, whose [getTime()] is [NaN].
    - [Array.prototype.sort] is the stable sort when the comparator is
      consistent on the array; otherwise the order it leaves is the
      implementation's, here the host's.
    - The disk is a partial map from paths to nodes; [fs.existsSync],
      [fs.statSync], [fs.readdirSync] and [fs.readFileSync] observe it.
    - [path.join], [path.basename], [os.platform()] and the string
      functions that depend on the Unicode tables or the locale of the
      engine belong to the host and are taken as parameters ([Host]). *)

From Stdlib Require Import ZArith NArith Ascii String.
From stdpp Require Import base option list sorting.

Local Open Scope N_scope.

(** ** JavaScript strings *)

Abbreviation jsstring := (list N).

Definition js (s : string) : jsstring :=
  (λ a, N_of_ascii a) <$> list_ascii_of_string s.

Definition SLASH : N := 47.
Definition BACKSLASH : N := 92.
Definition COLON : N := 58.
Definition PERCENT : N := 37.

(** [String.prototype.toLowerCase], code unit by code unit.  The table
    covers Basic Latin, Latin-1 and the two letter-like signs whose lower
    case is a Latin letter; other code units are left as they are.  It
    serves [skipFolders.has(part.toLowerCase())], where that is exact:
    the names of the set are ASCII, and the code units whose lower case
    is an ASCII letter are [A]-[Z] and the Kelvin sign.  Where strings
    are compared by their lower case, the function is the host's. *)
Definition lowerUnit (c : N) : N :=
  if (65 <=? c) && (c <=? 90) then c + 32
  else if (192 <=? c) && (c <=? 222) && negb (c =? 215) then c + 32
  else if c =? 8490 then 107
  else if c =? 8491 then 229
  else c.

Definition toLowerCase (s : jsstring) : jsstring := lowerUnit <$> s.

(** [toUpperCase] of a one-unit string over Basic Latin and Latin-1; the
    result may be longer than the argument (sharp s).  The hosts of the
    examples use this table; the embedding takes the function from the
    host. *)
Definition upperUnit (c : N) : jsstring :=
  if (97 <=? c) && (c <=? 122) then [c - 32]
  else if (224 <=? c) && (c <=? 254) && negb (c =? 247) then [c - 32]
  else if c =? 223 then [83; 83]
  else if c =? 255 then [376]
  else if c =? 181 then [924]
  else [c].

(** [s.replace(/x/g, y)] for single code units [x] and [y]. *)
Definition replaceAll (x y : N) (s : jsstring) : jsstring :=
  (λ c, if c =? x then y else c) <$> s.

Fixpoint startsWith (pat s : jsstring) : bool :=
  match pat, s with
  | [], _ => true
  | p :: pat', c :: s' => (p =? c) && startsWith pat' s'
  | _ :: _, [] => false
  end.

(** [s.replace(pat, rep)] with a string pattern: only the first
    occurrence is replaced ([rep] holds no dollar pattern here). *)
Fixpoint replaceFirst (pat rep s : jsstring) : jsstring :=
  if startsWith pat s then rep ++ drop (length pat) s
  else match s with
       | [] => []
       | c :: s' => c :: replaceFirst pat rep s'
       end.

(** [s.split(sep)] for a one-unit separator. *)
Fixpoint split (sep : N) (s : jsstring) : list jsstring :=
  match s with
  | [] => [[]]
  | c :: s' =>
      if c =? sep then [] :: split sep s'
      else match split sep s' with
           | p :: ps => (c :: p) :: ps
           | [] => [[c]]
           end
  end.

(** [a < b] as [Array.prototype.sort] orders strings when it is given no
    comparator: by UTF-16 code units. *)
Fixpoint codeUnitsBefore (a b : jsstring) : bool :=
  match a, b with
  | [], _ :: _ => true
  | x :: a', y :: b' => (x <? y) || ((x =? y) && codeUnitsBefore a' b')
  | _, [] => false
  end.

(** ** Completions: a value or a thrown exception *)

Inductive error := URIError | TypeError | SystemError.

Inductive completion (A : Type) :=
| Normal (a : A)
| Throw (e : error).
Arguments Normal {A} a.
Arguments Throw {A} e.

Definition cbind {A B} (c : completion A) (k : A → completion B) : completion B :=
  match c with
  | Normal a => k a
  | Throw e => Throw e
  end.

Definition throws {A} (c : completion A) : Prop :=
  match c with Normal _ => False | Throw _ => True end.

(** ** [decodeURIComponent] (ECMAScript Decode with an empty reserved set) *)

Definition hexDigit (c : N) : option N :=
  if (48 <=? c) && (c <=? 57) then Some (c - 48)
  else if (65 <=? c) && (c <=? 70) then Some (c - 55)
  else if (97 <=? c) && (c <=? 102) then Some (c - 87)
  else None.

(** A code unit taken literally, or the octet of a [%XX] escape. *)
Inductive token := Lit (c : N) | Octet (b : N).

Fixpoint tokens (s : jsstring) : completion (list token) :=
  match s with
  | [] => Normal []
  | c :: s' =>
      if c =? PERCENT then
        match s' with
        | h1 :: h2 :: s'' =>
            match hexDigit h1, hexDigit h2 with
            | Some a, Some b =>
                cbind (tokens s'') (λ ts, Normal (Octet (16 * a + b) :: ts))
            | _, _ => Throw URIError
            end
        | _ => Throw URIError
        end
      else cbind (tokens s') (λ ts, Normal (Lit c :: ts))
  end.

Definition isContinuation (b : N) : bool := (128 <=? b) && (b <? 192).

(** The code point of a well-formed UTF-8 sequence of the given lead and
    continuation octets: not overlong, not a surrogate, at most 10FFFF. *)
Definition utf8CodePoint (lead : N) (conts : list N) : option N :=
  if forallb isContinuation conts then
    match conts with
    | [b1] =>
        let v := (lead - 192) * 64 + (b1 - 128) in
        if 128 <=? v then Some v else None
    | [b1; b2] =>
        let v := (lead - 224) * 4096 + (b1 - 128) * 64 + (b2 - 128) in
        if (2048 <=? v) && negb ((55296 <=? v) && (v <=? 57343)) then Some v else None
    | [b1; b2; b3] =>
        let v := (lead - 240) * 262144 + (b1 - 128) * 4096 + (b2 - 128) * 64 + (b3 - 128) in
        if (65536 <=? v) && (v <=? 1114111) then Some v else None
    | _ => None
    end
  else None.

Definition utf16Encode (v : N) : jsstring :=
  if v <? 65536 then [v]
  else [55296 + (v - 65536) / 1024; 56320 + (v - 65536) mod 1024].

Definition decodeSeq (lead : N) (conts : list N) (k : completion jsstring)
  : completion jsstring :=
  match utf8CodePoint lead conts with
  | Some v => cbind k (λ r, Normal (utf16Encode v ++ r))
  | None => Throw URIError
  end.

Fixpoint decodeTokens (ts : list token) : completion jsstring :=
  match ts with
  | [] => Normal []
  | Lit c :: ts' => cbind (decodeTokens ts') (λ r, Normal (c :: r))
  | Octet b :: ts' =>
      if b <? 128 then cbind (decodeTokens ts') (λ r, Normal (b :: r))
      else if b <? 192 then Throw URIError
      else if b <? 224 then
        match ts' with
        | Octet b1 :: r => decodeSeq b [b1] (decodeTokens r)
        | _ => Throw URIError
        end
      else if b <? 240 then
        match ts' with
        | Octet b1 :: Octet b2 :: r => decodeSeq b [b1; b2] (decodeTokens r)
        | _ => Throw URIError
        end
      else if b <? 248 then
        match ts' with
        | Octet b1 :: Octet b2 :: Octet b3 :: r =>
            decodeSeq b [b1; b2; b3] (decodeTokens r)
        | _ => Throw URIError
        end
      else Throw URIError
  end.

Definition decodeURIComponent (s : jsstring) : completion jsstring :=
  cbind (tokens s) decodeTokens.

(** ** Data model *)

(** The time value of a [Date]: an integral number of milliseconds, or
    [None] for an Invalid Date. *)
Abbreviation Date := (option Z).

Record FileVersion := {
  source : jsstring;
  timestamp : Date;
  folderId : jsstring
}.

Record RecoverableFile := {
  originalPath : jsstring;
  versions : list FileVersion;
  latestTimestamp : Date
}.

Record Project := {
  name : jsstring;
  files : list (jsstring * RecoverableFile)
}.

#[global] Instance FileVersion_eq_dec : EqDecision FileVersion.
Proof. solve_decision. Defined.

#[global] Instance RecoverableFile_eq_dec : EqDecision RecoverableFile.
Proof. solve_decision. Defined.

(** ** The host *)

Record Host := {
  win32 : bool;                                 (* os.platform() === 'win32' *)
  join : jsstring → jsstring → jsstring;        (* path.join of two segments *)
  basename : jsstring → jsstring;               (* path.basename *)
  upper : N → jsstring;                         (* c.toUpperCase(), c one code unit *)
  lower : jsstring → jsstring;                  (* s.toLowerCase() *)
  localeCompare : jsstring → jsstring → Z;      (* a.localeCompare(b) *)
  (* the order [sort] leaves an array in when the comparator it is
     given is not consistent on the array: version arrays and file
     arrays *)
  sortOrder : list FileVersion → list FileVersion;
  fileOrder : list RecoverableFile → list RecoverableFile
}.

(** ** Path codec *)

Definition decodePath (host : Host) (resourcePath : jsstring) : completion jsstring :=
  cbind (decodeURIComponent (replaceFirst (js "file:///") [] resourcePath))
    (λ decoded,
      if win32 host then
        let decoded := replaceAll SLASH BACKSLASH decoded in
        match decoded with
        | c0 :: c1 :: _ :: _ =>
            if c1 =? COLON then Normal (upper host c0 ++ drop 1 decoded)
            else Normal decoded
        | _ => Normal decoded
        end
      else Normal decoded).

Definition skipFolders : list jsstring :=
  js <$> ["users"; "user"; "home"; "documents"; "desktop";
          "downloads"; "study"; "projects"; "code"; "dev"; "src"]%string.

Definition has (set : list jsstring) (s : jsstring) : bool :=
  bool_decide (s ∈ set).

Definition isDrive (p : jsstring) : bool :=
  match p with
  | [_; c1] => c1 =? COLON
  | _ => false
  end.

(** The [filter] callback of [extractProjectName]: a non-empty segment
    that is not a drive such as [C:]. *)
Definition isSegment (p : jsstring) : bool :=
  negb (bool_decide (p = [])) && negb (isDrive p).

Definition pathParts (filePath : jsstring) : list jsstring :=
  filter (λ p, isSegment p = true) (split SLASH (replaceAll BACKSLASH SLASH filePath)).

Definition skipped (part : jsstring) : bool := has skipFolders (toLowerCase part).

Fixpoint firstUnskipped (parts : list jsstring) : option jsstring :=
  match parts with
  | [] => None
  | part :: rest => if negb (skipped part) then Some part else firstUnskipped rest
  end.

Definition extractProjectName (filePath : jsstring) : jsstring :=
  let parts := pathParts filePath in
  match firstUnskipped parts with
  | Some part => part
  | None =>
      if bool_decide (2 ≤ length parts)%nat
      then default [] (parts !! (length parts - 2)%nat)
      else js "Unknown Project"
  end.

(** ** Maps

    A JavaScript [Map] with string keys: keys are unique and kept in
    insertion order; [set] on a present key replaces the value in place. *)
Fixpoint Map_get {V} (k : jsstring) (m : list (jsstring * V)) : option V :=
  match m with
  | [] => None
  | (k', v) :: m' => if decide (k = k') then Some v else Map_get k m'
  end.

Fixpoint Map_set {V} (k : jsstring) (v : V) (m : list (jsstring * V)) : list (jsstring * V) :=
  match m with
  | [] => [(k, v)]
  | (k', v') :: m' => if decide (k = k') then (k, v) :: m' else (k', v') :: Map_set k v m'
  end.

Definition Map_has {V} (k : jsstring) (m : list (jsstring * V)) : bool :=
  bool_decide (is_Some (Map_get k m)).

Abbreviation Index := (list (jsstring * Project)).

(** ** The disk *)

(** A JSON number: the rational [n/d] (every finite double is one, and
    [-0] is [0]), or an infinity, which [JSON.parse] gives for a literal
    beyond the range of doubles. *)
Inductive number :=
| Finite (n : Z) (d : positive)
| Infinite (negative : bool).

Definition isZero (t : number) : bool :=
  match t with
  | Finite n _ => (n =? 0)%Z
  | Infinite _ => false
  end.

(** The largest time value of a [Date], in milliseconds. *)
Definition maxTime : Z := 8640000000000000.

(** [new Date(t)] for a number [t] (line 154): TimeClip gives an
    Invalid Date when [t] is not finite or [abs t] exceeds [maxTime],
    and [t] truncated towards zero otherwise. *)
Definition newDate (t : number) : Date :=
  match t with
  | Finite n d =>
      if (Z.abs n <=? maxTime * Z.pos d)%Z then Some (Z.quot n (Z.pos d)) else None
  | Infinite _ => None
  end.

(** One element of [data.entries]; a field is [None] when the property
    is absent. *)
Record entry := {
  e_id : option jsstring;
  e_timestamp : option number
}.

(** The manifest [entries.json] as [JSON.parse] returns it. *)
Record manifest := {
  resource : option jsstring;
  entries : option (list entry)
}.

(** A node of the file system.  A file has a byte size and, read as a
    manifest, gives [json]: [None] when [readFileSync] or [JSON.parse]
    throws or the parsed value has no properties to read.  A directory
    has the size [statSync] reports and a listing, [None] when
    [readdirSync] throws on it. *)
Inductive node :=
| File (bytes : N) (json : option manifest)
| Dir (bytes : N) (listing : option (list jsstring)).

Abbreviation disk := (jsstring → option node).

Definition isDirectory (n : node) : bool :=
  match n with Dir _ _ => true | File _ _ => false end.

Definition byteSize (n : node) : N :=
  match n with Dir b _ | File b _ => b end.

Definition existsSync (d : disk) (p : jsstring) : bool := bool_decide (is_Some (d p)).

Definition statSync (d : disk) (p : jsstring) : completion node :=
  match d p with
  | Some n => Normal n
  | None => Throw SystemError
  end.

Definition readdirSync (d : disk) (p : jsstring) : completion (list jsstring) :=
  match d p with
  | Some (Dir _ (Some names)) => Normal names
  | _ => Throw SystemError
  end.

(** [JSON.parse(fs.readFileSync(p, 'utf-8'))] *)
Definition readJSON (d : disk) (p : jsstring) : completion manifest :=
  match d p with
  | Some (File _ (Some data)) => Normal data
  | _ => Throw SystemError
  end.

(** ** Sorting versions, newest first *)

(** What [sort] makes of the comparator
    [(a, b) => b.timestamp.getTime() - a.timestamp.getTime()]: its value,
    with [NaN] (an Invalid Date on either side) counted as [+0]. *)
Definition compareVersions (a b : FileVersion) : Z :=
  match timestamp a, timestamp b with
  | Some ta, Some tb => (tb - ta)%Z
  | _, _ => 0%Z
  end.

(** The stable sort under [compareVersions], computed by insertion: [w]
    stays before [v] when it compares below it. *)
Fixpoint insertVersion (v : FileVersion) (l : list FileVersion) : list FileVersion :=
  match l with
  | [] => [v]
  | w :: l' =>
      if (compareVersions w v <? 0)%Z then w :: insertVersion v l' else v :: w :: l'
  end.

Definition stableSort (l : list FileVersion) : list FileVersion :=
  foldr insertVersion [] l.

(** The comparator is a consistent comparison for the elements of [l]:
    it never yields [NaN] on them, that is, every date is valid.  (On
    valid dates it is the sign of an integer difference.) *)
Definition consistent (l : list FileVersion) : bool :=
  forallb (λ v, bool_decide (is_Some (timestamp v))) l.

(** [l.sort(comparator)].  [Array.prototype.sort] is stable and sorts
    when the comparator is consistent on the array; when it is not, the
    order is implementation-defined: the elements are kept and the host
    decides their order. *)
Definition sortVersions (host : Host) (l : list FileVersion) : list FileVersion :=
  if consistent l then stableSort l
  else
    let r := sortOrder host l in
    if bool_decide (r ≡ₚ l) then r else stableSort l.

(** ** The scan, by value *)

(** JavaScript truthiness of [entry.id] and [entry.timestamp]. *)
Definition truthyId (e : entry) : option jsstring :=
  match e_id e with
  | Some (c :: s) => Some (c :: s)
  | _ => None
  end.

Definition truthyTimestamp (e : entry) : option number :=
  match e_timestamp e with
  | Some t => if isZero t then None else Some t
  | None => None
  end.

(** The loop over [entries] (lines 136-157), pushing onto [acc]. *)
Fixpoint entryLoop (host : Host) (d : disk) (showEmptyVersions : bool)
    (folderPath folderName : jsstring) (es : list entry) (acc : list FileVersion)
  : completion (list FileVersion) :=
  match es with
  | [] => Normal acc
  | e :: rest =>
      let continue := entryLoop host d showEmptyVersions folderPath folderName rest in
      match truthyId e, truthyTimestamp e with
      | Some i, Some t =>
          let sourceFile := join host folderPath i in
          if negb (existsSync d sourceFile) then continue acc
          else
            cbind (statSync d sourceFile) (λ st,
              let fileSize := byteSize st in
              if negb showEmptyVersions && (fileSize <=? 1) then continue acc
              else continue (acc ++ [{| source := sourceFile;
                                        timestamp := newDate t;
                                        folderId := folderName |}]))
      | _, _ => continue acc
      end
  end.

(** Lines 159-176 on the project found at line 130.  The result is the
    project as the block leaves it, also where reading
    [versions[0].timestamp] of an empty array would throw. *)
Definition storeVersions (host : Host) (decodedPath : jsstring) (vs : list FileVersion)
    (project : Project) : Project :=
  match vs with
  | [] => project
  | _ :: _ =>
      let vs := sortVersions host vs in
      match Map_get decodedPath (files project) with
      | Some existingFile =>
          let all := sortVersions host (versions existingFile ++ vs) in
          {| name := name project;
             files := Map_set decodedPath
                        {| originalPath := originalPath existingFile;
                           versions := all;
                           latestTimestamp :=
                             match all with
                             | v0 :: _ => timestamp v0
                             | [] => latestTimestamp existingFile
                             end |}
                        (files project) |}
      | None =>
          match vs with
          | v0 :: _ =>
              {| name := name project;
                 files := Map_set decodedPath
                            {| originalPath := decodedPath;
                               versions := vs;
                               latestTimestamp := timestamp v0 |}
                            (files project) |}
          | [] => project
          end
      end
  end.

(** The [try] block of one folder (lines 112-180): the index as the
    block leaves it, whether it completes or the [catch] swallows an
    exception. *)
Definition tryFolder (host : Host) (d : disk) (showEmptyVersions : bool)
    (folderPath folderName jsonFile : jsstring) (projects : Index) : Index :=
  match readJSON d jsonFile with
  | Throw _ => projects
  | Normal data =>
      match resource data with
      | None | Some [] => projects
      | Some resourcePath =>
          match decodePath host resourcePath with
          | Throw _ => projects
          | Normal decodedPath =>
              let projectName := extractProjectName decodedPath in
              let projects :=
                if Map_has projectName projects then projects
                else Map_set projectName {| name := projectName; files := [] |} projects in
              match Map_get projectName projects, entries data with
              | Some project, Some es =>
                  match entryLoop host d showEmptyVersions folderPath folderName es [] with
                  | Normal vs =>
                      Map_set projectName (storeVersions host decodedPath vs project) projects
                  | Throw _ => projects
                  end
              | _, _ => projects
              end
          end
      end
  end.

(** The loop over the folders of the history root (lines 100-181).  A
    [statSync] that throws leaves the loop for the outer [catch]. *)
Fixpoint folderLoop (host : Host) (d : disk) (showEmptyVersions : bool)
    (historyPath : jsstring) (folders : list jsstring) (projects : Index) : Index :=
  match folders with
  | [] => projects
  | folderName :: rest =>
      let folderPath := join host historyPath folderName in
      match statSync d folderPath with
      | Throw _ => projects
      | Normal st =>
          if negb (isDirectory st) then
            folderLoop host d showEmptyVersions historyPath rest projects
          else
            let jsonFile := join host folderPath (js "entries.json") in
            if negb (existsSync d jsonFile) then
              folderLoop host d showEmptyVersions historyPath rest projects
            else
              folderLoop host d showEmptyVersions historyPath rest
                (tryFolder host d showEmptyVersions folderPath folderName jsonFile projects)
      end
  end.

(** The scanner object. *)
Record HistoryScanner := {
  historyPath : jsstring;
  cache : option Index
}.

Definition historyExists (d : disk) (this : HistoryScanner) : bool :=
  existsSync d (historyPath this).

Definition scanAllFiles (host : Host) (d : disk) (showEmptyVersions : bool)
    (this : HistoryScanner) : Index * HistoryScanner :=
  if negb (historyExists d this) then ([], this)
  else
    let projects :=
      match readdirSync d (historyPath this) with
      | Normal folders =>
          folderLoop host d showEmptyVersions (historyPath this) folders []
      | Throw _ => []
      end in
    (projects, {| historyPath := historyPath this; cache := Some projects |}).

Definition ensureCache (host : Host) (d : disk) (this : HistoryScanner) : HistoryScanner :=
  match cache this with
  | Some _ => this
  | None => (scanAllFiles host d false this).2
  end.

Definition getFilesForProject (host : Host) (d : disk) (projectName : jsstring)
    (this : HistoryScanner) : list (jsstring * RecoverableFile) * HistoryScanner :=
  let this := ensureCache host d this in
  (match cache this with
   | Some c =>
       match Map_get projectName c with
       | Some project => files project
       | None => []
       end
   | None => []
   end, this).

Definition getFileVersions (host : Host) (d : disk) (projectName filePath : jsstring)
    (this : HistoryScanner) : list FileVersion * HistoryScanner :=
  let '(files, this) := getFilesForProject host d projectName this in
  (match Map_get filePath files with
   | Some file => versions file
   | None => []
   end, this).

Definition clearCache (this : HistoryScanner) : HistoryScanner :=
  {| historyPath := historyPath this; cache := None |}.

(** ** The scan, by reference

    The same methods over a store of JavaScript objects: [Map]s, project
    and file records and version arrays live at locations, [new] and
    object literals allocate, [set], [push], [sort] and assignments
    write in place, and what the methods return are references. *)

Module Ref.

Abbreviation loc := nat.

Inductive obj :=
| OIndex (m : list (jsstring * loc))          (* Map<string, Project> *)
| OProject (name : jsstring) (files : loc)    (* { name, files } *)
| OFiles (m : list (jsstring * loc))          (* Map<string, RecoverableFile> *)
| OFile (originalPath : jsstring) (versions : loc) (latestTimestamp : Date)
| OArray (vs : list FileVersion).             (* FileVersion[] *)

Abbreviation heap := (list obj).

(** A computation over the store; the store survives a throw. *)
Definition M (A : Type) : Type := heap → completion A * heap.

Definition ret {A} (a : A) : M A := λ h, (Normal a, h).

Definition bind {A B} (c : M A) (k : A → M B) : M B :=
  λ h, match c h with
       | (Normal a, h') => k a h'
       | (Throw e, h') => (Throw e, h')
       end.

Definition throw {A} (e : error) : M A := λ h, (Throw e, h).

Definition lift {A} (c : completion A) : M A := λ h, (c, h).

(** [try { c } catch { }] *)
Definition try (c : M unit) : M unit := λ h, (Normal tt, (c h).2).

Definition alloc (o : obj) : M loc := λ h, (Normal (length h), h ++ [o]).

Definition write (l : loc) (o : obj) : M unit := λ h, (Normal tt, <[l := o]> h).

Definition readIndex (l : loc) : M (list (jsstring * loc)) :=
  λ h, match h !! l with
       | Some (OIndex m) => (Normal m, h)
       | _ => (Throw TypeError, h)
       end.

Definition readProject (l : loc) : M (jsstring * loc) :=
  λ h, match h !! l with
       | Some (OProject n f) => (Normal (n, f), h)
       | _ => (Throw TypeError, h)
       end.

Definition readFiles (l : loc) : M (list (jsstring * loc)) :=
  λ h, match h !! l with
       | Some (OFiles m) => (Normal m, h)
       | _ => (Throw TypeError, h)
       end.

Definition readFile (l : loc) : M (jsstring * loc * Date) :=
  λ h, match h !! l with
       | Some (OFile p v t) => (Normal (p, v, t), h)
       | _ => (Throw TypeError, h)
       end.

Definition readArray (l : loc) : M (list FileVersion) :=
  λ h, match h !! l with
       | Some (OArray vs) => (Normal vs, h)
       | _ => (Throw TypeError, h)
       end.

Notation "'let*' x ':=' c 'in' k" := (bind c (λ x, k))
  (at level 10, x pattern, c at level 100, k at level 200).

(** [a.sort(byTimestampDescending)] in place *)
Definition sortArray (host : Host) (a : loc) : M unit :=
  let* vs := readArray a in write a (OArray (sortVersions host vs)).

(** [a.push(...vs)] *)
Definition pushAll (a : loc) (vs : list FileVersion) : M unit :=
  let* old := readArray a in write a (OArray (old ++ vs)).

(** [a[0].timestamp] *)
Definition headTimestamp (a : loc) : M Date :=
  let* vs := readArray a in
  match vs with
  | v0 :: _ => ret (timestamp v0)
  | [] => throw TypeError
  end.

(** Lines 159-176: [versions] is the array filled by the entry loop,
    [project] the record found at line 130. *)
Definition storeVersions (host : Host) (decodedPath : jsstring) (versions project : loc)
  : M unit :=
  let* vs := readArray versions in
  match vs with
  | [] => ret tt
  | _ :: _ =>
      let* _ := sortArray host versions in
      let* (_, files) := readProject project in
      let* fm := readFiles files in
      match Map_get decodedPath fm with
      | Some existingFile =>
          let* (p, evs, _) := readFile existingFile in
          let* new := readArray versions in
          let* _ := pushAll evs new in
          let* _ := sortArray host evs in
          let* t := headTimestamp evs in
          write existingFile (OFile p evs t)
      | None =>
          let* t := headTimestamp versions in
          let* file := alloc (OFile decodedPath versions t) in
          let* fm := readFiles files in
          write files (OFiles (Map_set decodedPath file fm))
      end
  end.

(** The body of the [try] block of one folder (lines 113-176). *)
Definition folderBody (host : Host) (d : disk) (showEmptyVersions : bool)
    (folderPath folderName jsonFile : jsstring) (projects : loc) : M unit :=
  let* data := lift (readJSON d jsonFile) in
  match resource data with
  | None | Some [] => ret tt
  | Some resourcePath =>
      let* decodedPath := lift (decodePath host resourcePath) in
      let projectName := extractProjectName decodedPath in
      let* pm := readIndex projects in
      let* _ :=
        (if Map_has projectName pm then ret tt
         else
           let* files := alloc (OFiles []) in
           let* project := alloc (OProject projectName files) in
           let* pm := readIndex projects in
           write projects (OIndex (Map_set projectName project pm))) in
      let* pm := readIndex projects in
      let* project := lift (from_option Normal (Throw TypeError) (Map_get projectName pm)) in
      let* versions := alloc (OArray []) in
      let* es := lift (from_option Normal (Throw TypeError) (entries data)) in
      let* vs := lift (entryLoop host d showEmptyVersions folderPath folderName es []) in
      let* _ := pushAll versions vs in
      storeVersions host decodedPath versions project
  end.

Fixpoint folderLoop (host : Host) (d : disk) (showEmptyVersions : bool)
    (historyPath : jsstring) (folders : list jsstring) (projects : loc) : M unit :=
  match folders with
  | [] => ret tt
  | folderName :: rest =>
      let folderPath := join host historyPath folderName in
      let* st := lift (statSync d folderPath) in
      if negb (isDirectory st) then
        folderLoop host d showEmptyVersions historyPath rest projects
      else
        let jsonFile := join host folderPath (js "entries.json") in
        if negb (existsSync d jsonFile) then
          folderLoop host d showEmptyVersions historyPath rest projects
        else
          let* _ := try (folderBody host d showEmptyVersions folderPath folderName jsonFile projects) in
          folderLoop host d showEmptyVersions historyPath rest projects
  end.

(** The scanner object: [cache] holds a reference. *)
Record HistoryScanner := {
  historyPath : jsstring;
  cache : option loc
}.

Definition scanAllFiles (host : Host) (d : disk) (showEmptyVersions : bool)
    (this : HistoryScanner) : M (loc * HistoryScanner) :=
  if negb (existsSync d (historyPath this)) then
    let* empty := alloc (OIndex []) in ret (empty, this)
  else
    let* projects := alloc (OIndex []) in
    let* _ :=
      try (let* folders := lift (readdirSync d (historyPath this)) in
           folderLoop host d showEmptyVersions (historyPath this) folders projects) in
    ret (projects, {| historyPath := historyPath this; cache := Some projects |}).

Definition clearCache (this : HistoryScanner) : HistoryScanner :=
  {| historyPath := historyPath this; cache := None |}.

Definition ensureCache (host : Host) (d : disk) (this : HistoryScanner) : M HistoryScanner :=
  match cache this with
  | Some _ => ret this
  | None => let* (_, this) := scanAllFiles host d false this in ret this
  end.

(** Returns the project's own [files] map, or a new empty [Map]. *)
Definition getFilesForProject (host : Host) (d : disk) (projectName : jsstring)
    (this : HistoryScanner) : M (loc * HistoryScanner) :=
  let* this := ensureCache host d this in
  match cache this with
  | Some c =>
      let* pm := readIndex c in
      match Map_get projectName pm with
      | Some project => let* (_, files) := readProject project in ret (files, this)
      | None => let* empty := alloc (OFiles []) in ret (empty, this)
      end
  | None => let* empty := alloc (OFiles []) in ret (empty, this)
  end.

(** What a caller may do with the scanner later on: a sequence of
    method calls, on whatever the disk holds at each call. *)
Inductive call :=
| Scan (d : disk) (showEmptyVersions : bool)
| Clear
| Files (d : disk) (projectName : jsstring).

Definition step (host : Host) (s : HistoryScanner * heap) (c : call)
  : HistoryScanner * heap :=
  match c with
  | Scan d showEmptyVersions =>
      match scanAllFiles host d showEmptyVersions s.1 s.2 with
      | (Normal (_, this), h) => (this, h)
      | (Throw _, h) => (s.1, h)
      end
  | Clear => (clearCache s.1, s.2)
  | Files d projectName =>
      match getFilesForProject host d projectName s.1 s.2 with
      | (Normal (_, this), h) => (this, h)
      | (Throw _, h) => (s.1, h)
      end
  end.

Definition run (host : Host) (cs : list call) (s : HistoryScanner * heap)
  : HistoryScanner * heap :=
  foldl (step host) s cs.

(** ** Reading a structure out of the store *)

Definition arrayAt (h : heap) (l : loc) : option (list FileVersion) :=
  match h !! l with
  | Some (OArray vs) => Some vs
  | _ => None
  end.

Definition fileAt (h : heap) (l : loc) : option RecoverableFile :=
  match h !! l with
  | Some (OFile p v t) =>
      vs ← arrayAt h v; Some {| originalPath := p; versions := vs; latestTimestamp := t |}
  | _ => None
  end.

Definition filesAt (h : heap) (l : loc) : option (list (jsstring * RecoverableFile)) :=
  match h !! l with
  | Some (OFiles m) => mapM (λ kl, f ← fileAt h kl.2; Some (kl.1, f)) m
  | _ => None
  end.

Definition projectAt (h : heap) (l : loc) : option Project :=
  match h !! l with
  | Some (OProject n f) => fs ← filesAt h f; Some {| name := n; files := fs |}
  | _ => None
  end.

Definition indexAt (h : heap) (l : loc) : option Index :=
  match h !! l with
  | Some (OIndex m) => mapM (λ kl, p ← projectAt h kl.2; Some (kl.1, p)) m
  | _ => None
  end.

End Ref.

(** ** Entries and files, as the specification describes them *)

(** The skip rule for one manifest entry in the words of the
    specification: the id or the time stamp is absent, the artifact is
    missing, or empty versions are hidden and the artifact has at most
    one byte. *)
Definition specSkipped (host : Host) (d : disk) (includeEmpty : bool)
    (folderPath : jsstring) (e : entry) : bool :=
  match e_id e, e_timestamp e with
  | Some i, Some _ =>
      match d (join host folderPath i) with
      | None => true
      | Some n => negb includeEmpty && (byteSize n <=? 1)
      end
  | _, _ => true
  end.

(** The skip rule the entry loop applies: as above, with an empty id and
    a zero time stamp counted as absent. *)
Definition skipEntry (host : Host) (d : disk) (includeEmpty : bool)
    (folderPath : jsstring) (e : entry) : bool :=
  match e_id e, e_timestamp e with
  | Some i, Some t =>
      bool_decide (i = []) || isZero t ||
      match d (join host folderPath i) with
      | None => true
      | Some n => negb includeEmpty && (byteSize n <=? 1)
      end
  | _, _ => true
  end.

(** The version record of an entry that is kept. *)
Definition recordOf (host : Host) (folderPath folderName : jsstring) (e : entry)
  : FileVersion :=
  {| source := join host folderPath (default [] (e_id e));
     timestamp := e_timestamp e ≫= newDate;
     folderId := folderName |}.

(** The date of the version is valid. *)
Definition validDate (v : FileVersion) : Prop := is_Some (timestamp v).

#[global] Instance validDate_dec v : Decision (validDate v).
Proof. unfold validDate. apply _. Defined.


(** Newest first: both dates are valid and [a] is not older than [b]. *)
Definition newerOrEqual (a b : FileVersion) : Prop :=
  match timestamp a, timestamp b with
  | Some ta, Some tb => (tb ≤ ta)%Z
  | _, _ => False
  end.

(** What the specification asks of every file of the index. *)
Definition specInvariant (f : RecoverableFile) : Prop :=
  versions f ≠ [] ∧
  Sorted newerOrEqual (versions f) ∧
  (timestamp <$> head (versions f)) = Some (latestTimestamp f).


(** ** What the folders of a history contribute *)


(** The manifest of folder [g] of the history root [hp]. *)
Definition manifestOf (host : Host) (d : disk) (hp g : jsstring) : completion manifest :=
  readJSON d (join host (join host hp g) (js "entries.json")).

(** Folder [g] is a directory whose manifest names a resource that
    decodes to [q]. *)
Definition references (host : Host) (d : disk) (hp g q : jsstring) : Prop :=
  (∃ b l, d (join host hp g) = Some (Dir b l)) ∧
  ∃ data c r,
    manifestOf host d hp g = Normal data ∧
    resource data = Some (c :: r) ∧
    decodePath host (c :: r) = Normal q.

(** The version records of the entries of folder [g] that are not
    skipped, in manifest order. *)
Definition survivors (host : Host) (d : disk) (showEmptyVersions : bool)
    (hp g : jsstring) : list FileVersion :=
  match manifestOf host d hp g with
  | Normal data =>
      match entries data with
      | Some es =>
          recordOf host (join host hp g) g <$>
            filter (λ e, skipEntry host d showEmptyVersions (join host hp g) e = false) es
      | None => []
      end
  | Throw _ => []
  end.

(** What one folder does to the index: nothing, or the records [vs] it
    stores for the path [q]. *)
Definition folderEvent (host : Host) (d : disk) (showEmptyVersions : bool)
    (hp g : jsstring) : option (jsstring * list FileVersion) :=
  match d (join host hp g) with
  | Some (Dir _ _) =>
      match manifestOf host d hp g with
      | Normal data =>
          match resource data with
          | Some (c :: r) =>
              match decodePath host (c :: r) with
              | Normal q => Some (q, survivors host d showEmptyVersions hp g)
              | Throw _ => None
              end
          | _ => None
          end
      | Throw _ => None
      end
  | _ => None
  end.

(** Storing the records [ev.2] for the path [ev.1]: lines 121-176 once
    the manifest is read. *)
Definition record (host : Host) (idx : Index) (ev : jsstring * list FileVersion) : Index :=
  let n := extractProjectName ev.1 in
  let idx := if Map_has n idx then idx
             else Map_set n {| name := n; files := [] |} idx in
  match Map_get n idx with
  | Some p => Map_set n (storeVersions host ev.1 ev.2 p) idx
  | None => idx
  end.


(** The file the index holds for the path [q], looked up in the project
    inferred from [q]. *)
Definition fileOf (idx : Index) (q : jsstring) : option RecoverableFile :=
  p ← Map_get (extractProjectName q) idx; Map_get q (files p).

(** The file made of the records [vs], if there are any: its versions
    are their stable sort. *)
Definition fileWith (q : jsstring) (vs : list FileVersion) : option RecoverableFile :=
  match stableSort vs with
  | [] => None
  | v0 :: r => Some {| originalPath := q; versions := v0 :: r; latestTimestamp := timestamp v0 |}
  end.


(** ** An index in the store *)

(** How an index sits in the store.  [n0] is the size of the store when
    the scan began: every object of the index lives at or above it.  A
    project record is allocated right after its [files] map and a file
    record right after its version array. *)
Definition fileCell (n0 : nat) (h : Ref.heap) (n q : jsstring) (l : Ref.loc)
    (f : RecoverableFile) : Prop :=
  originalPath f = q ∧ extractProjectName q = n ∧
  ∃ vl, l = S vl ∧ (n0 ≤ vl)%nat ∧
        h !! l = Some (Ref.OFile q vl (latestTimestamp f)) ∧
        h !! vl = Some (Ref.OArray (versions f)).

Definition repFiles (n0 : nat) (h : Ref.heap) (n : jsstring)
    (fm : list (jsstring * Ref.loc)) (fs : list (jsstring * RecoverableFile)) : Prop :=
  fm.*1 = fs.*1 ∧ NoDup fm.*1 ∧
  ∀ q l f, Map_get q fm = Some l → Map_get q fs = Some f → fileCell n0 h n q l f.

Definition projCell (n0 : nat) (h : Ref.heap) (k : jsstring) (pl : Ref.loc)
    (p : Project) : Prop :=
  name p = k ∧
  ∃ fl fm, pl = S fl ∧ (n0 ≤ fl)%nat ∧
           h !! pl = Some (Ref.OProject k fl) ∧
           h !! fl = Some (Ref.OFiles fm) ∧
           repFiles n0 h k fm (files p).

Definition repIndex (n0 : nat) (h : Ref.heap) (P : Ref.loc) (idx : Index) : Prop :=
  (n0 ≤ P)%nat ∧
  ∃ pm, h !! P = Some (Ref.OIndex pm) ∧ pm.*1 = idx.*1 ∧ NoDup pm.*1 ∧
        ∀ k pl p, Map_get k pm = Some pl → Map_get k idx = Some p →
                  projCell n0 h k pl p.

(** The cells of the file stored for [q], and of project [k], are the
    same in [h'] as in [h]. *)
Definition keepsFile (h h' : Ref.heap) (q : jsstring) : Prop :=
  ∀ vl t vs,
    h !! S vl = Some (Ref.OFile q vl t) → h !! vl = Some (Ref.OArray vs) →
    h' !! S vl = Some (Ref.OFile q vl t) ∧ h' !! vl = Some (Ref.OArray vs).

Definition keepsProject (h h' : Ref.heap) (k : jsstring) : Prop :=
  ∀ fl fm,
    h !! S fl = Some (Ref.OProject k fl) → h !! fl = Some (Ref.OFiles fm) →
    h' !! S fl = Some (Ref.OProject k fl) ∧ h' !! fl = Some (Ref.OFiles fm).

(** The scanner by reference holds, in its cache, a reference to the
    index the scanner by value holds. *)
Definition repScanner (n0 : nat) (h : Ref.heap) (this : Ref.HistoryScanner)
    (thisV : HistoryScanner) : Prop :=
  Ref.historyPath this = historyPath thisV ∧
  match Ref.cache this, cache thisV with
  | Some c, Some idx => repIndex n0 h c idx
  | None, None => True
  | _, _ => False
  end.

(** ** A small history store *)

Module Fixture.

(** The host functions of the examples.  The case tables are exact on
    Basic Latin and Latin-1, the comparison is by code units, and an
    array on which the comparator is not consistent is left as it is. *)
Definition lastSegment (sep : N) (p : jsstring) : jsstring :=
  default [] (last (split sep p)).

Definition byCodeUnits (a b : jsstring) : Z :=
  if codeUnitsBefore a b then (-1)%Z else if codeUnitsBefore b a then 1%Z else 0%Z.

Definition posix : Host :=
  {| win32 := false;
     join := λ a b, a ++ SLASH :: b;
     basename := lastSegment SLASH;
     upper := upperUnit;
     lower := toLowerCase;
     localeCompare := byCodeUnits;
     sortOrder := λ l, l;
     fileOrder := λ l, l |}.

Definition windows : Host :=
  {| win32 := true;
     join := λ a b, a ++ BACKSLASH :: b;
     basename := λ p, lastSegment SLASH (replaceAll BACKSLASH SLASH p);
     upper := upperUnit;
     lower := toLowerCase;
     localeCompare := byCodeUnits;
     sortOrder := λ l, l;
     fileOrder := λ l, l |}.

Definition diskOf (l : list (jsstring * node)) : disk := λ p, Map_get p l.

Definition mkEntry (i : string) (t : Z) : entry :=
  {| e_id := Some (js i); e_timestamp := Some (Finite t 1) |}.

Definition appManifest (es : list entry) : node :=
  File 120 (Some {| resource := Some (js "file:///home/alice/proj/app.py");
                    entries := Some es |}).

(** Two folders tracking the same file, one folder whose only artifact
    is a one-byte save, and a stray file in the history root. *)
Definition store : disk := diskOf
  [ (js "/h", Dir 4096 (Some [js "a"; js "b"; js "c"; js "notes.txt"]));
    (js "/h/a", Dir 4096 (Some [js "entries.json"; js "v1"; js "v2"; js "e1"]));
    (js "/h/a/entries.json",
       appManifest [mkEntry "v1" 100; mkEntry "v2" 300; mkEntry "e1" 200; mkEntry "gone" 400]);
    (js "/h/a/v1", File 10 None);
    (js "/h/a/v2", File 20 None);
    (js "/h/a/e1", File 1 None);
    (js "/h/b", Dir 4096 (Some [js "entries.json"; js "v3"]));
    (js "/h/b/entries.json", appManifest [mkEntry "v3" 250]);
    (js "/h/b/v3", File 5 None);
    (js "/h/c", Dir 4096 (Some [js "entries.json"; js "e2"]));
    (js "/h/c/entries.json",
       File 90 (Some {| resource := Some (js "file:///home/bob/site/index.html");
                        entries := Some [mkEntry "e2" 500] |}));
    (js "/h/c/e2", File 1 None);
    (js "/h/notes.txt", File 7 None) ].

Definition scanner : HistoryScanner := {| historyPath := js "/h"; cache := None |}.

Definition version (folder file : string) (t : Z) : FileVersion :=
  {| source := js "/h" ++ SLASH :: js folder ++ SLASH :: js file;
     timestamp := Some t; folderId := js folder |}.

End Fixture.

(** ** The rest of the scanner *)

Fixpoint insertName (s : jsstring) (l : list jsstring) : list jsstring :=
  match l with
  | [] => [s]
  | t :: l' => if codeUnitsBefore t s then t :: insertName s l' else s :: t :: l'
  end.

(** [names.sort()], stable. *)
Definition sortNames (l : list jsstring) : list jsstring := foldr insertName [] l.

Definition getProjects (host : Host) (d : disk) (this : HistoryScanner)
  : list jsstring * HistoryScanner :=
  let this := ensureCache host d this in
  (sortNames (match cache this with Some c => c.*1 | None => [] end), this).

(** [parts.join(sep)] *)
Definition joinWith (sep : N) (parts : list jsstring) : jsstring :=
  match parts with
  | [] => []
  | p :: ps => p ++ concat ((λ q, sep :: q) <$> ps)
  end.

(** [parts.findIndex(pred)]; [None] stands for [-1]. *)
Fixpoint findIndex {A} (pred : A → bool) (l : list A) : option nat :=
  match l with
  | [] => None
  | x :: l' => if pred x then Some 0%nat else S <$> findIndex pred l'
  end.

(** The stable sort under a comparator [cmp], computed by insertion:
    [y] stays before [x] when [cmp y x] is negative.  It is what
    [Array.prototype.sort] does when [cmp] is consistent on the array. *)
Fixpoint insertWith {A} (cmp : A → A → Z) (x : A) (l : list A) : list A :=
  match l with
  | [] => [x]
  | y :: l' => if (cmp y x <? 0)%Z then y :: insertWith cmp x l' else x :: y :: l'
  end.

Definition sortWith {A} (cmp : A → A → Z) (l : list A) : list A :=
  foldr (insertWith cmp) [] l.

(** [cmp] is a consistent comparison for the elements of [l]: equality
    under it is reflexive, symmetric and transitive, and so are below
    and above. *)
Definition consistentOn {A} (cmp : A → A → Z) (l : list A) : bool :=
  forallb (λ a,
    (cmp a a =? 0)%Z &&
    forallb (λ b,
      implb (cmp a b =? 0)%Z (cmp b a =? 0)%Z &&
      forallb (λ c,
        implb ((cmp a b =? 0) && (cmp b c =? 0))%Z (cmp a c =? 0)%Z &&
        implb ((cmp a b <? 0) && (cmp b c <? 0))%Z (cmp a c <? 0)%Z &&
        implb ((0 <? cmp a b) && (0 <? cmp b c))%Z (0 <? cmp a c)%Z) l) l) l.

(** The comparison [sort] makes when it is given no comparator; it is
    consistent on every array of strings. *)
Definition defaultCompare (x y : jsstring) : Z :=
  if codeUnitsBefore x y then (-1)%Z else if codeUnitsBefore y x then 1%Z else 0%Z.

Module FileRecovery.

Definition getRelativePath (host : Host) (filePath projectName : jsstring) : jsstring :=
  let normalized := replaceAll BACKSLASH SLASH filePath in
  let parts := split SLASH normalized in
  match findIndex (λ p, bool_decide (lower host p = lower host projectName)) parts with
  | Some idx =>
      if bool_decide (idx < length parts - 1)%nat
      then joinWith SLASH (drop (S idx) parts)
      else basename host filePath
  | None => basename host filePath
  end.

End FileRecovery.

(** ** The tree provider ([src/recoveryTreeProvider.ts]) *)

Module RecoveryTreeProvider.

Record t := {
  scanner : HistoryScanner;
  currentProject : option jsstring;
  fileTree : list (jsstring * RecoverableFile)
}.

(** [this.currentProject] when it is truthy: neither [null] nor empty. *)
Definition selected (this : t) : option jsstring :=
  match currentProject this with
  | Some (c :: s) => Some (c :: s)
  | _ => None
  end.

Definition refresh (host : Host) (d : disk) (this : t) : t :=
  let s := (scanAllFiles host d false (clearCache (scanner this))).2 in
  match selected this with
  | Some project =>
      let '(files, s) := getFilesForProject host d project s in
      {| scanner := s; currentProject := currentProject this; fileTree := files |}
  | None =>
      {| scanner := s; currentProject := currentProject this; fileTree := fileTree this |}
  end.

Definition setProject (host : Host) (d : disk) (projectName : jsstring) (this : t) : t :=
  let '(files, s) := getFilesForProject host d projectName (scanner this) in
  {| scanner := s; currentProject := Some projectName; fileTree := files |}.

(** Lines 278-293; its body repeats [FileRecovery.getRelativePath]. *)
Definition getRelativePath (host : Host) (this : t) (filePath : jsstring) : jsstring :=
  match selected this with
  | None => basename host filePath
  | Some project => FileRecovery.getRelativePath host filePath project
  end.

(** [relativePath.replace(/\\/g, '/').split('/')] *)
Definition relativeParts (host : Host) (this : t) (filePath : jsstring) : list jsstring :=
  split SLASH (replaceAll BACKSLASH SLASH (getRelativePath host this filePath)).

(** The first loop of [buildTree] (lines 183-197): the files of the
    tree sorted into [folders] and [rootFiles], before the items are
    made and ordered for display. *)
Fixpoint organize (parts : jsstring → list jsstring)
    (tree : list (jsstring * RecoverableFile))
    (folders : list (jsstring * list RecoverableFile)) (rootFiles : list RecoverableFile)
  : list (jsstring * list RecoverableFile) * list RecoverableFile :=
  match tree with
  | [] => (folders, rootFiles)
  | (filePath, file) :: rest =>
      match parts filePath with
      | folder :: _ :: _ =>
          let folders := if Map_has folder folders then folders
                         else Map_set folder [] folders in
          organize parts rest
            (Map_set folder (default [] (Map_get folder folders) ++ [file]) folders)
            rootFiles
      | _ => organize parts rest folders (rootFiles ++ [file])
      end
  end.

(** The loop of [getChildrenForFolder] (lines 239-255): [subFolders] and
    [files], before the file items are made and ordered. *)
Fixpoint collect (parts : jsstring → list jsstring) (folderName : jsstring)
    (tree : list (jsstring * RecoverableFile))
    (subFolders : list (jsstring * list RecoverableFile)) (files : list RecoverableFile)
  : list (jsstring * list RecoverableFile) * list RecoverableFile :=
  match tree with
  | [] => (subFolders, files)
  | (filePath, file) :: rest =>
      match parts filePath with
      | folder :: subFolder :: more =>
          if bool_decide (folder = folderName) then
            match more with
            | _ :: _ =>
                let subFolders := if Map_has subFolder subFolders then subFolders
                                  else Map_set subFolder [] subFolders in
                collect parts folderName rest
                  (Map_set subFolder (default [] (Map_get subFolder subFolders) ++ [file])
                     subFolders)
                  files
            | [] => collect parts folderName rest subFolders (files ++ [file])
            end
          else collect parts folderName rest subFolders files
      | _ => collect parts folderName rest subFolders files
      end
  end.

(** The comparator of the two file sorts (lines 215-217 and 259-261):
    by base name, in the order of the locale. *)
Definition byBasename (host : Host) (a b : RecoverableFile) : Z :=
  localeCompare host (basename host (originalPath a)) (basename host (originalPath b)).

(** [files.sort(byBasename)]: the stable sort where the comparator is
    consistent on the array; where it is not, the elements are kept
    and the host decides their order. *)
Definition sortFiles (host : Host) (l : list RecoverableFile) : list RecoverableFile :=
  if consistentOn (byBasename host) l then sortWith (byBasename host) l
  else
    let r := fileOrder host l in
    if bool_decide (r ≡ₚ l) then r else sortWith (byBasename host) l.

(** The string [sort] compares an entry [[folderName, files]] of the
    folder map by: the name, and [[object Object]] for each file. *)
Definition entryString (e : jsstring * list RecoverableFile) : jsstring :=
  joinWith 44 [e.1; joinWith 44 (replicate (length e.2) (js "[object Object]"))].

(** The folders [buildTree] lists, in the order of
    [Array.from(folders.entries()).sort()] (line 204), and the files it
    lists at the root, in the order of their sort. *)
Definition folderNames (host : Host) (this : t) : list jsstring :=
  (sortWith (λ a b, defaultCompare (entryString a) (entryString b))
     (organize (relativeParts host this) (fileTree this) [] []).1).*1.

Definition rootFiles (host : Host) (this : t) : list RecoverableFile :=
  sortFiles host (organize (relativeParts host this) (fileTree this) [] []).2.

(** The files [getChildrenForFolder] lists under [folderName], sorted. *)
Definition childFiles (host : Host) (this : t) (folderName : jsstring)
  : list RecoverableFile :=
  sortFiles host (collect (relativeParts host this) folderName (fileTree this) [] []).2.

(** A [RecoveryTreeItem]: its label and the optional properties. *)
Record treeItem := {
  label : jsstring;
  itemPath : option jsstring;
  itemVersions : option (list FileVersion);
  isFolder : bool
}.

Definition folderItem (folderName : jsstring) : treeItem :=
  {| label := folderName; itemPath := None; itemVersions := None; isFolder := true |}.

Definition fileItem (host : Host) (file : RecoverableFile) : treeItem :=
  {| label := basename host (originalPath file);
     itemPath := Some (originalPath file);
     itemVersions := Some (versions file);
     isFolder := false |}.

Definition buildTree (host : Host) (this : t) : list treeItem :=
  (folderItem <$> folderNames host this) ++ (fileItem host <$> rootFiles host this).

Definition getChildrenForFolder (host : Host) (this : t) (folderName : jsstring)
  : list treeItem :=
  fileItem host <$> childFiles host this folderName.

End RecoveryTreeProvider.

(** ** Version navigation in the preview ([src/previewPanel.ts]) *)

Module PreviewPanel.

(** The fields of a [RecoveryTreeItem] the panel reads. *)
Record item := {
  filePath : option jsstring;
  versions : option (list FileVersion)
}.

(** The static fields [_currentFile] and [_currentVersionIndex]. *)
Record state := {
  currentFile : option item;
  currentVersionIndex : Z
}.

Definition initial : state := {| currentFile := None; currentVersionIndex := 0 |}.

(** [PreviewPanel._currentFile?.versions] *)
Definition currentVersions (s : state) : option (list FileVersion) :=
  currentFile s ≫= versions.

Definition createOrShow (file : option item) (s : state) : state :=
  match file with
  | Some f => {| currentFile := Some f; currentVersionIndex := 0 |}
  | None => s
  end.

(** [index] is what [parseInt] gave the webview script: an integer, or
    [None] for [NaN], on which both comparisons are false. *)
Definition selectVersion (index : option Z) (s : state) : state :=
  match currentVersions s, index with
  | Some vs, Some index =>
      if (0 <=? index)%Z && (index <? Z.of_nat (length vs))%Z
      then {| currentFile := currentFile s; currentVersionIndex := index |}
      else s
  | _, _ => s
  end.

Definition olderVersion (s : state) : state :=
  match currentVersions s with
  | None => s
  | Some vs =>
      if (currentVersionIndex s <? Z.of_nat (length vs) - 1)%Z
      then {| currentFile := currentFile s;
              currentVersionIndex := (currentVersionIndex s + 1)%Z |}
      else s
  end.

Definition newerVersion (s : state) : state :=
  match currentVersions s with
  | None => s
  | Some vs =>
      if (0 <? currentVersionIndex s)%Z
      then {| currentFile := currentFile s;
              currentVersionIndex := (currentVersionIndex s - 1)%Z |}
      else s
  end.

Definition dispose (s : state) : state := initial.

(** The indexes [showDiff] compares: the current version and the next
    older one; [None] when it only shows a message. *)
Definition showDiff (s : state) : option (Z * Z) :=
  match currentVersions s with
  | None => None
  | Some vs =>
      if (Z.of_nat (length vs) <? 2)%Z then None
      else
        let currentIdx := currentVersionIndex s in
        let olderIdx := Z.min (currentIdx + 1) (Z.of_nat (length vs) - 1) in
        if (currentIdx =? olderIdx)%Z then None else Some (currentIdx, olderIdx)
  end.

(** What the user does with the panel. *)
Inductive command :=
| CreateOrShow (file : option item)
| SelectVersion (index : option Z)
| OlderVersion
| NewerVersion
| Dispose.

Definition exec (s : state) (c : command) : state :=
  match c with
  | CreateOrShow file => createOrShow file s
  | SelectVersion index => selectVersion index s
  | OlderVersion => olderVersion s
  | NewerVersion => newerVersion s
  | Dispose => dispose s
  end.

End PreviewPanel.

(** ** Well-formed indexes *)

(** No name is the key of two projects and no path the key of two files
    of a project; a project is stored under its own name and a file
    under its own path, in the project inferred from that path. *)
Definition wellKeyed (idx : Index) : Prop :=
  NoDup idx.*1 ∧
  Forall (λ kp : jsstring * Project,
            name kp.2 = kp.1 ∧ NoDup (files kp.2).*1 ∧
            Forall (λ kf : jsstring * RecoverableFile,
                      originalPath kf.2 = kf.1 ∧ extractProjectName kf.1 = kp.1)
                   (files kp.2))
         idx.


Definition allVersions (idx : Index) : list FileVersion :=
  idx ≫= (λ kp, files kp.2 ≫= (λ kf, versions kf.2)).


(** A history whose listing names a folder that is gone: [b] is listed
    between [a] and [c] and has no node. *)
Module Broken.

Definition store : disk := Fixture.diskOf
  [ (js "/h", Dir 4096 (Some [js "a"; js "b"; js "c"]));
    (js "/h/a", Dir 4096 (Some [js "entries.json"; js "v1"]));
    (js "/h/a/entries.json", Fixture.appManifest [Fixture.mkEntry "v1" 100]);
    (js "/h/a/v1", File 10 None);
    (js "/h/c", Dir 4096 (Some [js "entries.json"; js "w1"]));
    (js "/h/c/entries.json",
       File 90 (Some {| resource := Some (js "file:///home/bob/site/index.html");
                        entries := Some [Fixture.mkEntry "w1" 500] |}));
    (js "/h/c/w1", File 30 None) ].

End Broken.

(** ** Depth of a relative path *)



(** ** States of the preview panel *)

(** The version index is [0], or a position in the version list of the
    current file. *)
Definition indexInBounds (s : PreviewPanel.state) : Prop :=
  PreviewPanel.currentVersionIndex s = 0%Z ∨
  ∃ vs, PreviewPanel.currentVersions s = Some vs ∧
        (0 ≤ PreviewPanel.currentVersionIndex s < Z.of_nat (length vs))%Z.

(** The states the panel gets into. *)
Definition reachable (s : PreviewPanel.state) : Prop :=
  ∃ cs, s = foldl PreviewPanel.exec PreviewPanel.initial cs.

(** Every file of [idx1] is a file of [idx2], in the same project and
    with at least the same versions. *)
Definition covered (idx1 idx2 : Index) : Prop :=
  ∀ n p1 q f1, Map_get n idx1 = Some p1 → Map_get q (files p1) = Some f1 →
    ∃ p2 f2, Map_get n idx2 = Some p2 ∧ Map_get q (files p2) = Some f2 ∧
             ∀ v, v ∈ versions f1 → v ∈ versions f2.

(** ** Choosing a project ([src/extension.ts]) *)

Module Extension.

(** [selectProject] (lines 141-177).  [picked] is what the quick pick
    resolves to: the project of the chosen item, or [None] when it is
    dismissed; [d] is the disk before the pick and [d'] after it.  The
    result is the tree provider as the function leaves it and the quick
    pick items it offered: each project with its file count. *)
Definition selectProject (host : Host) (d d' : disk) (picked : option jsstring)
    (tp : RecoveryTreeProvider.t) : RecoveryTreeProvider.t * list (jsstring * nat) :=
  let '(projects, s) := getProjects host d (RecoveryTreeProvider.scanner tp) in
  let tp := {| RecoveryTreeProvider.scanner := s;
               RecoveryTreeProvider.currentProject := RecoveryTreeProvider.currentProject tp;
               RecoveryTreeProvider.fileTree := RecoveryTreeProvider.fileTree tp |} in
  match projects with
  | [] => (tp, [])
  | _ :: _ =>
      let '(tp, items) :=
        foldl (λ '(tp, items) project,
                 let tp := RecoveryTreeProvider.setProject host d project tp in
                 (tp, items ++ [(project, length (RecoveryTreeProvider.fileTree tp))]))
              (tp, []) projects in
      let currentProject := RecoveryTreeProvider.selected tp in
      match picked, currentProject with
      | Some project, _ => (RecoveryTreeProvider.setProject host d' project tp, items)
      | None, Some project => (RecoveryTreeProvider.setProject host d' project tp, items)
      | None, None => (tp, items)
      end
  end.

End Extension.

(** The files the index [c] holds for a project name. *)
Definition filesIn (c : Index) (projectName : jsstring) : list (jsstring * RecoverableFile) :=
  default [] (files <$> Map_get projectName c).

(** ** Histories on which statements of the specification fail *)

Module Odd.

(** One folder whose manifest has, between two ordinary time stamps,
    one beyond the range of [Date]. *)
Definition farStamp : disk := Fixture.diskOf
  [ (js "/h", Dir 4096 (Some [js "a"]));
    (js "/h/a", Dir 4096 (Some [js "entries.json"; js "v1"; js "v2"; js "v3"]));
    (js "/h/a/entries.json",
       Fixture.appManifest [Fixture.mkEntry "v1" 50;
                            Fixture.mkEntry "v2" 9000000000000000;
                            Fixture.mkEntry "v3" 100]);
    (js "/h/a/v1", File 10 None);
    (js "/h/a/v2", File 20 None);
    (js "/h/a/v3", File 30 None) ].

(** Two folders tracking the same file, and between them in the
    listing a name that is gone. *)
Definition interrupted : disk := Fixture.diskOf
  [ (js "/h", Dir 4096 (Some [js "a"; js "gone"; js "b"]));
    (js "/h/a", Dir 4096 (Some [js "entries.json"; js "v1"]));
    (js "/h/a/entries.json", Fixture.appManifest [Fixture.mkEntry "v1" 100]);
    (js "/h/a/v1", File 10 None);
    (js "/h/b", Dir 4096 (Some [js "entries.json"; js "v3"]));
    (js "/h/b/entries.json", Fixture.appManifest [Fixture.mkEntry "v3" 250]);
    (js "/h/b/v3", File 5 None) ].

(** Two folders tracking the same file whose only artifacts are
    one-byte saves. *)
Definition emptySaves : disk := Fixture.diskOf
  [ (js "/h", Dir 4096 (Some [js "a"; js "b"]));
    (js "/h/a", Dir 4096 (Some [js "entries.json"; js "e1"]));
    (js "/h/a/entries.json", Fixture.appManifest [Fixture.mkEntry "e1" 100]);
    (js "/h/a/e1", File 1 None);
    (js "/h/b", Dir 4096 (Some [js "entries.json"; js "e2"]));
    (js "/h/b/entries.json", Fixture.appManifest [Fixture.mkEntry "e2" 250]);
    (js "/h/b/e2", File 1 None) ].

(** Two folders tracking the same file, the first with a time stamp
    beyond the range of [Date]. *)
Definition farStampTwice : disk := Fixture.diskOf
  [ (js "/h", Dir 4096 (Some [js "a"; js "b"]));
    (js "/h/a", Dir 4096 (Some [js "entries.json"; js "v1"; js "v2"]));
    (js "/h/a/entries.json",
       Fixture.appManifest [Fixture.mkEntry "v1" 50;
                            Fixture.mkEntry "v2" 9000000000000000]);
    (js "/h/a/v1", File 10 None);
    (js "/h/a/v2", File 20 None);
    (js "/h/b", Dir 4096 (Some [js "entries.json"; js "v3"]));
    (js "/h/b/entries.json", Fixture.appManifest [Fixture.mkEntry "v3" 100]);
    (js "/h/b/v3", File 30 None) ].

End Odd.

(** ** What is known of the host's case mapping *)

(** [toUpperCase] of a code unit yields no lower-case ASCII letter, and
    a slash only from a slash. *)
Definition upperCaseLaw (host : Host) : Prop :=
  ∀ c u, u ∈ upper host c → ¬ (97 ≤ u ≤ 122) ∧ (u = SLASH → c = SLASH).

(** * Properties *)

(** ** Project-name inference *)

Lemma firstUnskipped_all_skipped parts :
  Forall (λ p, skipped p = true) parts → firstUnskipped parts = None.
Proof.
  induction 1 as [|p parts Hp _ IH]; simpl; [done|].
  by rewrite Hp.
Qed.

Lemma firstUnskipped_Some parts part :
  firstUnskipped parts = Some part → part ∈ parts ∧ skipped part = false.
Proof.
  induction parts as [|p parts IH]; simpl; [done|].
  destruct (skipped p) eqn:Hp; simpl.
  - intros [? ?]%IH. split; [by right|done].
  - intros [= <-]. split; [by left|done].
Qed.

(** C1, first half, as the specification states it: the example path
    would give [myapp].  The scan stops at [alice], the first segment
    outside the skip set. *)
Lemma extractProjectName_example_not_myapp :
  extractProjectName (js "/Users/alice/Documents/myapp/src/main.py") ≠ js "myapp".
Proof. vm_compute. discriminate. Qed.

(** C1 (amended): on [/Users/alice/Documents/myapp/src/main.py] the
    result is [alice], the first segment that is not in the skip set; and
    for every path whose segments are all in the skip set the result is
    the second-to-last segment, or ["Unknown Project"] when there are
    fewer than two segments. *)
Theorem extractProjectName_first_unskipped_or_fallback :
  extractProjectName (js "/Users/alice/Documents/myapp/src/main.py") = js "alice" ∧
  ∀ filePath,
    Forall (λ p, skipped p = true) (pathParts filePath) →
    let parts := pathParts filePath in
    ((2 ≤ length parts)%nat →
       parts !! (length parts - 2)%nat = Some (extractProjectName filePath)) ∧
    ((length parts < 2)%nat → extractProjectName filePath = js "Unknown Project").
Proof.
  split; [by vm_compute|].
  intros filePath Hall parts. unfold extractProjectName. fold parts.
  rewrite (firstUnskipped_all_skipped parts Hall).
  split; intros Hlen.
  - rewrite bool_decide_eq_true_2 by done.
    destruct (lookup_lt_is_Some_2 parts (length parts - 2)) as [x Hx]; [lia|].
    by rewrite Hx.
  - rewrite bool_decide_eq_false_2 by lia. done.
Qed.

Lemma extractProjectName_fallback_witness :
  Forall (λ p, skipped p = true) (pathParts (js "C:\Users\Documents\src\Code")) ∧
  pathParts (js "C:\Users\Documents\src\Code") !! 2%nat
    = Some (extractProjectName (js "C:\Users\Documents\src\Code")) ∧
  extractProjectName (js "/src") = js "Unknown Project".
Proof.
  assert (H1 : Forall (λ p, skipped p = true) (pathParts (js "C:\Users\Documents\src\Code"))).
  { vm_compute. repeat constructor. }
  assert (H2 : Forall (λ p, skipped p = true) (pathParts (js "/src"))).
  { vm_compute. repeat constructor. }
  split; [exact H1|]. split.
  - apply (proj1 (proj2 extractProjectName_first_unskipped_or_fallback _ H1)).
    vm_compute. lia.
  - apply (proj2 (proj2 extractProjectName_first_unskipped_or_fallback _ H2)).
    vm_compute. lia.
Defined.

(** ** Decoding a resource reference *)

Lemma replaceFirst_elem pat s c :
  c ∈ replaceFirst pat [] s → c ∈ s.
Proof.
  induction s as [|x s IH]; simpl.
  - destruct (startsWith pat []); simpl; [|done].
    rewrite drop_nil. done.
  - destruct (startsWith pat (x :: s)); simpl.
    + intros H. by eapply subseteq_drop.
    + intros [->|H]%elem_of_cons; [left|right; auto].
Qed.

Lemma tokens_no_percent s :
  PERCENT ∉ s → ∃ ts, tokens s = Normal ts ∧ Forall (λ t, ∃ c, t = Lit c) ts.
Proof.
  induction s as [|c s IH]; simpl; intros Hs.
  - exists []. split; [done|constructor].
  - apply not_elem_of_cons in Hs as [Hc Hs].
    destruct (N.eqb_spec c PERCENT) as [->|_]; [done|].
    destruct (IH Hs) as (ts & -> & Hts). simpl.
    exists (Lit c :: ts). split; [done|]. constructor; eauto.
Qed.

Lemma decodeTokens_literals ts :
  Forall (λ t, ∃ c, t = Lit c) ts → ∃ r, decodeTokens ts = Normal r.
Proof.
  induction 1 as [|t ts [c ->] _ [r IH]]; simpl; [by eexists|].
  rewrite IH. simpl. by eexists.
Qed.

Lemma tokens_error s e : tokens s = Throw e → e = URIError.
Proof.
  revert e. induction s as [s IH] using (induction_ltof1 _ length); intros e.
  unfold ltof in IH.
  destruct s as [|c s]; simpl; [done|].
  destruct (c =? PERCENT).
  - destruct s as [|h1 [|h2 s]]; try (by intros [= <-]).
    destruct (hexDigit h1), (hexDigit h2); try (by intros [= <-]).
    destruct (tokens s) eqn:Hs; simpl; [done|].
    intros [= <-]. eapply IH; [|done]. simpl. lia.
  - destruct (tokens s) eqn:Hs; simpl; [done|].
    intros [= <-]. eapply IH; [|done]. simpl. lia.
Qed.

Lemma decodeSeq_error lead conts k e :
  (∀ e', k = Throw e' → e' = URIError) →
  decodeSeq lead conts k = Throw e → e = URIError.
Proof.
  intros Hk. unfold decodeSeq.
  destruct (utf8CodePoint lead conts); [|by intros [= <-]].
  destruct k; simpl; [done|]. intros [= <-]. by apply Hk.
Qed.

Lemma decodeTokens_error ts e : decodeTokens ts = Throw e → e = URIError.
Proof.
  revert e. induction ts as [ts IH] using (induction_ltof1 _ length); intros e.
  unfold ltof in IH.
  assert (Hrec : ∀ r, (length r < length ts)%nat →
                 ∀ e', decodeTokens r = Throw e' → e' = URIError).
  { intros r Hr e' He'. by eapply IH. }
  clear IH. destruct ts as [|[c|b] ts]; simpl in *; [done| |].
  - destruct (decodeTokens ts) eqn:Hts; simpl; [done|].
    intros [= <-]. eapply Hrec; [|done]. lia.
  - repeat case_match; subst; simpl in *;
      try (by intros [= <-]); try done;
      try (apply decodeSeq_error; apply Hrec; simpl; lia).
    destruct (decodeTokens ts) eqn:Hts; simpl; [done|].
    intros [= <-]. eapply Hrec; [|done]. lia.
Qed.

Lemma decodeURIComponent_error s e : decodeURIComponent s = Throw e → e = URIError.
Proof.
  unfold decodeURIComponent. destruct (tokens s) eqn:Hs; simpl.
  - apply decodeTokens_error.
  - intros [= <-]. by eapply tokens_error.
Qed.

Lemma decodePath_throws_iff host resourcePath :
  throws (decodePath host resourcePath) ↔
  throws (decodeURIComponent (replaceFirst (js "file:///") [] resourcePath)).
Proof.
  unfold decodePath.
  destruct (decodeURIComponent _) as [decoded|e]; simpl; [|done].
  destruct (win32 host); [|done].
  repeat case_match; done.
Qed.

Lemma decodePath_error host resourcePath e :
  decodePath host resourcePath = Throw e → e = URIError.
Proof.
  unfold decodePath.
  destruct (decodeURIComponent _) as [decoded|e'] eqn:Hd; simpl.
  - destruct (win32 host); [|done]. repeat case_match; done.
  - intros [= <-]. by eapply decodeURIComponent_error.
Qed.

(** C3, as the specification states it: [decodePath] never throws.  It
    has no handler of its own, and [decodeURIComponent] throws on a
    percent sign that does not start an escape. *)
Lemma decodePath_throws_on_bad_escape :
  decodePath Fixture.posix (js "file:///home/alice/100%.txt") = Throw URIError.
Proof. by vm_compute. Qed.

(** C3 (amended): [decodePath] returns a string exactly when
    [decodeURIComponent] accepts the reference with its [file:///]
    removed, in particular for every reference without a percent sign;
    otherwise it throws [URIError].  The scan catches that exception: a
    folder whose reference does not decode leaves the index as it was
    and the loop goes on with the folders that follow. *)
Theorem decodePath_throws_only_URIError_and_scan_survives host resourcePath :
  (throws (decodePath host resourcePath) ↔
     throws (decodeURIComponent (replaceFirst (js "file:///") [] resourcePath))) ∧
  (PERCENT ∉ resourcePath → ∃ p, decodePath host resourcePath = Normal p) ∧
  ((∃ p, decodePath host resourcePath = Normal p) ∨
     decodePath host resourcePath = Throw URIError) ∧
  (throws (decodePath host resourcePath) →
   ∀ d showEmptyVersions hp g rest b l data projects,
     d (join host hp g) = Some (Dir b l) →
     readJSON d (join host (join host hp g) (js "entries.json")) = Normal data →
     resource data = Some resourcePath →
     folderLoop host d showEmptyVersions hp (g :: rest) projects =
     folderLoop host d showEmptyVersions hp rest projects).
Proof.
  split; [apply decodePath_throws_iff|]. split; [|split].
  - intros Hp.
    assert (Hp' : PERCENT ∉ replaceFirst (js "file:///") [] resourcePath).
    { intros H. by apply Hp, (replaceFirst_elem (js "file:///")). }
    destruct (tokens_no_percent _ Hp') as (ts & Hts & Hlit).
    destruct (decodeTokens_literals ts Hlit) as [r Hr].
    destruct (decodePath host resourcePath) as [p|e] eqn:Hd; [by eexists|].
    exfalso.
    assert (Ht : throws (decodePath host resourcePath)) by (by rewrite Hd).
    apply decodePath_throws_iff in Ht.
    unfold decodeURIComponent in Ht. rewrite Hts in Ht. simpl in Ht.
    by rewrite Hr in Ht.
  - destruct (decodePath host resourcePath) as [p|e] eqn:Hd; [left; by eexists|].
    right. by rewrite (decodePath_error _ _ _ Hd).
  - intros Ht d showEmptyVersions hp g rest b l data projects Hdir Hjson Hres.
    simpl. unfold statSync. rewrite Hdir. simpl.
    assert (Hex : existsSync d (join host (join host hp g) (js "entries.json")) = true).
    { unfold existsSync, readJSON in *. apply bool_decide_eq_true.
      destruct (d (join host (join host hp g) (js "entries.json"))); [by eauto|done]. }
    rewrite Hex. simpl. f_equal.
    unfold tryFolder. rewrite Hjson, Hres.
    destruct resourcePath; [done|].
    by destruct (decodePath host _).
Qed.

Lemma decodePath_witness :
  (PERCENT ∉ js "file:///home/alice/proj/app.py") ∧
  (∃ p, decodePath Fixture.posix (js "file:///home/alice/proj/app.py") = Normal p) ∧
  throws (decodePath Fixture.posix (js "%E0%A4%A")) ∧
  let d := Fixture.diskOf
    [(js "/h/x", Dir 4096 (Some [js "entries.json"]));
     (js "/h/x/entries.json",
        File 40 (Some {| resource := Some (js "%E0%A4%A"); entries := Some [] |}))] in
  folderLoop Fixture.posix d false (js "/h") [js "x"; js "a"] [] =
  folderLoop Fixture.posix d false (js "/h") [js "a"] [].
Proof.
  assert (Hp : PERCENT ∉ js "file:///home/alice/proj/app.py").
  { apply (bool_decide_unpack _). by vm_compute. }
  assert (Ht : throws (decodePath Fixture.posix (js "%E0%A4%A"))) by (by vm_compute).
  split; [exact Hp|]. split; [|split; [exact Ht|]].
  - exact (proj1 (proj2 (decodePath_throws_only_URIError_and_scan_survives
                           Fixture.posix _)) Hp).
  - intros d.
    eapply (proj2 (proj2 (proj2 (decodePath_throws_only_URIError_and_scan_survives
                                   Fixture.posix _))) Ht); reflexivity.
Defined.

(** ** The entry loop *)

Lemma entryLoop_cons host d showEmptyVersions folderPath folderName e es acc :
  entryLoop host d showEmptyVersions folderPath folderName (e :: es) acc =
  entryLoop host d showEmptyVersions folderPath folderName es
    (if skipEntry host d showEmptyVersions folderPath e then acc
     else acc ++ [recordOf host folderPath folderName e]).
Proof.
  simpl. unfold truthyId, truthyTimestamp, skipEntry, recordOf.
  destruct e as [[[|c i]|] [t|]]; simpl; try done.
  destruct (isZero t); simpl; [done|].
  unfold existsSync, statSync.
  destruct (d (join host folderPath (c :: i))) as [n|] eqn:Hn; simpl.
  - by destruct (negb showEmptyVersions && (byteSize n <=? 1)).
  - done.
Qed.

Lemma entryLoop_filter host d showEmptyVersions folderPath folderName es acc :
  entryLoop host d showEmptyVersions folderPath folderName es acc =
  Normal (acc ++ (recordOf host folderPath folderName <$>
                    filter (λ e, skipEntry host d showEmptyVersions folderPath e = false) es)).
Proof.
  revert acc. induction es as [|e es IH]; intros acc.
  - simpl. by rewrite app_nil_r.
  - rewrite entryLoop_cons, IH, filter_cons.
    destruct (skipEntry host d showEmptyVersions folderPath e) eqn:He.
    + by rewrite decide_False by done.
    + rewrite decide_True by done. simpl. by rewrite <- app_assoc.
Qed.

(** C7, as the specification states it: an entry is skipped exactly
    when its id or time stamp is absent, its artifact is missing, or the
    artifact is too small.  An entry with time stamp [0] and a ten-byte
    artifact meets none of those conditions and still yields no version
    record: [!entry.timestamp] holds for zero. *)
Lemma entry_with_zero_timestamp_is_skipped :
  let e := Fixture.mkEntry "v1" 0 in
  specSkipped Fixture.posix Fixture.store false (js "/h/a") e = false ∧
  entryLoop Fixture.posix Fixture.store false (js "/h/a") (js "a") [e] [] = Normal [].
Proof. by vm_compute. Qed.

(** C7 (amended): an entry is skipped exactly when its id is absent or
    empty, its time stamp is absent or zero, the artifact it names does
    not exist, or empty versions are hidden and the artifact has at most
    one byte; the entries that are not skipped become the version
    records, in manifest order.  An artifact of exactly one byte is
    skipped when [showEmptyVersions] is false and kept when it is true. *)
Theorem entryLoop_keeps_exactly_unskipped host d showEmptyVersions folderPath folderName es :
  entryLoop host d showEmptyVersions folderPath folderName es [] =
    Normal (recordOf host folderPath folderName <$>
              filter (λ e, skipEntry host d showEmptyVersions folderPath e = false) es) ∧
  ∀ i t n,
    i ≠ [] → isZero t = false →
    d (join host folderPath i) = Some n → byteSize n = 1 →
    let e := {| e_id := Some i; e_timestamp := Some t |} in
    skipEntry host d false folderPath e = true ∧
    skipEntry host d true folderPath e = false.
Proof.
  split; [apply (entryLoop_filter _ _ _ _ _ _ [])|].
  intros i t n Hi Ht Hn Hsz e. unfold skipEntry. simpl.
  rewrite Hn, Hsz, Ht, bool_decide_eq_false_2 by done. done.
Qed.

Lemma entryLoop_one_byte_witness :
  let e := Fixture.mkEntry "e1" 200 in
  skipEntry Fixture.posix Fixture.store false (js "/h/a") e = true ∧
  skipEntry Fixture.posix Fixture.store true (js "/h/a") e = false.
Proof.
  apply (proj2 (entryLoop_keeps_exactly_unskipped
                  Fixture.posix Fixture.store false (js "/h/a") (js "a") [])
           (js "e1") (Finite 200 1) (File 1 None)); by vm_compute.
Defined.

(** ** Sorting *)

Lemma insertVersion_Permutation v l : insertVersion v l ≡ₚ v :: l.
Proof.
  induction l as [|w l IH]; simpl; [done|].
  destruct (compareVersions w v <? 0)%Z; [|done].
  rewrite IH. apply perm_swap.
Qed.

Lemma stableSort_Permutation l : stableSort l ≡ₚ l.
Proof.
  induction l as [|v l IH]; simpl; [done|].
  by rewrite insertVersion_Permutation, IH.
Qed.

Lemma sortVersions_Permutation host l : sortVersions host l ≡ₚ l.
Proof.
  unfold sortVersions. destruct (consistent l); [apply stableSort_Permutation|].
  simpl. destruct (bool_decide (sortOrder host l ≡ₚ l)) eqn:Hp.
  - by apply bool_decide_eq_true in Hp.
  - apply stableSort_Permutation.
Qed.


Lemma sortVersions_nil_inv host l : sortVersions host l = [] → l = [].
Proof.
  intros H. apply Permutation_nil_r. by rewrite <- H, sortVersions_Permutation.
Qed.
















(** ** JavaScript maps *)

Section map.
Context {V : Type}.
Implicit Types (m : list (jsstring * V)) (k : jsstring) (v : V).

Lemma Map_get_set_eq k v m : Map_get k (Map_set k v m) = Some v.
Proof.
  induction m as [|[k' v'] m IH]; simpl.
  - by rewrite decide_True.
  - destruct (decide (k = k')) as [->|Hk]; simpl.
    + by rewrite decide_True.
    + by rewrite decide_False.
Qed.

Lemma Map_get_set_ne k k' v m : k ≠ k' → Map_get k' (Map_set k v m) = Map_get k' m.
Proof.
  intros Hk. induction m as [|[k'' v''] m IH]; simpl.
  - by rewrite decide_False.
  - destruct (decide (k = k'')) as [->|Hk'']; simpl.
    + by rewrite !decide_False.
    + destruct (decide (k' = k'')); done.
Qed.

Lemma Map_set_get_id k v m : Map_get k m = Some v → Map_set k v m = m.
Proof.
  induction m as [|[k' v'] m IH]; simpl; [done|].
  destruct (decide (k = k')) as [->|Hk]; [by intros [= ->]|].
  intros H. by rewrite IH.
Qed.

Lemma Map_get_elem k v m : Map_get k m = Some v → (k, v) ∈ m.
Proof.
  induction m as [|[k' v'] m IH]; simpl; [done|].
  destruct (decide (k = k')) as [->|Hk]; [intros [= ->]; left|right; auto].
Qed.

Lemma Map_set_Forall (P : jsstring * V → Prop) k v m :
  Forall P m → P (k, v) → Forall P (Map_set k v m).
Proof.
  intros Hm Hkv. induction Hm as [|[k' v'] m Hx Hm IH]; simpl.
  - by repeat constructor.
  - destruct (decide (k = k')); constructor; done.
Qed.

Lemma Map_has_true k m : Map_has k m = true ↔ is_Some (Map_get k m).
Proof. unfold Map_has. apply bool_decide_eq_true. Qed.

Lemma Map_has_false k m : Map_has k m = false ↔ Map_get k m = None.
Proof.
  unfold Map_has. rewrite bool_decide_eq_false.
  by rewrite eq_None_not_Some.
Qed.
End map.

(** ** The invariant of the files of an index *)






(** C5, as the specification states it, fails on a time stamp beyond
    the range of [Date].  The manifest of folder [a] lists the stamps
    [50], [9000000000000000] and [100]; the date made from the second
    is an Invalid Date, the comparator yields [NaN] against it, and the
    version list of the file is not sorted: on this host it stays in
    manifest order, with [latestTimestamp] the date of [50]. *)
Lemma invalid_date_leaves_versions_unsorted :
  let idx := (scanAllFiles Fixture.posix Odd.farStamp false Fixture.scanner).1 in
  ∃ f, fileOf idx (js "home/alice/proj/app.py") = Some f ∧
       (timestamp <$> versions f) = [Some 50%Z; None; Some 100%Z] ∧
       latestTimestamp f = Some 50%Z ∧
       ¬ specInvariant f.
Proof.
  intros idx. eexists. split; [by vm_compute|]. simpl.
  split; [done|]. split; [done|].
  intros (_ & Hs & _). apply Sorted_inv in Hs as [_ Hhd].
  inversion Hhd as [|? ? Hrel]. exact Hrel.
Qed.



(** ** Folders without surviving entries *)

(** C2 at a failing input: folder [c] of the fixture has a readable
    manifest whose only artifact is a one-byte save, so no entry
    survives; the project of its file is nevertheless in the index, with
    no file. *)
Theorem empty_folder_leaves_empty_project :
  entryLoop Fixture.posix Fixture.store false (js "/h/c") (js "c")
    [Fixture.mkEntry "e2" 500] [] = Normal [] ∧
  Map_get (js "bob") (scanAllFiles Fixture.posix Fixture.store false Fixture.scanner).1
    = Some {| name := js "bob"; files := [] |}.
Proof. by vm_compute. Qed.

(** ** A history root that cannot be enumerated *)

(** C8: when the history root does not exist, or listing it throws,
    [scanAllFiles] returns an empty index; by reference it completes
    normally, with a reference to an empty map. *)
Theorem scanAllFiles_unreadable_root host d showEmptyVersions this :
  historyExists d this = false ∨ throws (readdirSync d (historyPath this)) →
  (scanAllFiles host d showEmptyVersions this).1 = [] ∧
  ∀ h c, ∃ p this' h',
    Ref.scanAllFiles host d showEmptyVersions
      {| Ref.historyPath := historyPath this; Ref.cache := c |} h
      = (Normal (p, this'), h') ∧
    Ref.indexAt h' p = Some [].
Proof.
  intros Hroot. split.
  - unfold scanAllFiles. destruct Hroot as [->|Hdir]; [done|].
    destruct (negb (historyExists d this)); [done|]. simpl.
    by destruct (readdirSync d (historyPath this)).
  - intros h c. unfold Ref.scanAllFiles, historyExists in *. simpl.
    assert (Hempty : Ref.indexAt (h ++ [Ref.OIndex []]) (length h) = Some []).
    { unfold Ref.indexAt. by rewrite list_lookup_middle. }
    destruct Hroot as [->|Hdir]; simpl.
    + unfold Ref.bind, Ref.alloc, Ref.ret. simpl. eauto.
    + destruct (existsSync d (historyPath this)); simpl;
        unfold Ref.bind, Ref.alloc, Ref.try, Ref.ret, Ref.lift; simpl; [|eauto].
      destruct (readdirSync d (historyPath this)); [done|]. simpl. eauto.
Qed.

Lemma scanAllFiles_unreadable_root_witness :
  (scanAllFiles Fixture.posix Fixture.store false
     {| historyPath := js "/h/notes.txt"; cache := None |}).1 = [] ∧
  (scanAllFiles Fixture.posix Fixture.store false
     {| historyPath := js "/nowhere"; cache := None |}).1 = [].
Proof.
  split.
  - apply (scanAllFiles_unreadable_root Fixture.posix Fixture.store false
             {| historyPath := js "/h/notes.txt"; cache := None |}).
    right. by vm_compute.
  - apply (scanAllFiles_unreadable_root Fixture.posix Fixture.store false
             {| historyPath := js "/nowhere"; cache := None |}).
    left. by vm_compute.
Defined.

(** ** Queries *)

(** C9: [getFilesForProject] on a name that is not a key of the index
    returns an empty map, and [getFileVersions] on such a name, or on a
    path that is not a key of a known project's files, returns an empty
    list; both are total. *)
Theorem queries_on_unknown_names host d projectName filePath this :
  let idx := default [] (cache (ensureCache host d this)) in
  (Map_get projectName idx = None →
     (getFilesForProject host d projectName this).1 = [] ∧
     (getFileVersions host d projectName filePath this).1 = []) ∧
  (∀ project, Map_get projectName idx = Some project →
     Map_get filePath (files project) = None →
     (getFileVersions host d projectName filePath this).1 = []).
Proof.
  intros idx. unfold getFileVersions, getFilesForProject. subst idx.
  destruct (cache (ensureCache host d this)) as [c|]; simpl.
  - split.
    + by intros ->.
    + intros project -> Hfile. simpl. by rewrite Hfile.
  - split; [done|]. intros project. done.
Qed.

Lemma queries_on_unknown_names_witness :
  (getFilesForProject Fixture.posix Fixture.store (js "nonexistent-project")
     Fixture.scanner).1 = [] ∧
  (getFileVersions Fixture.posix Fixture.store (js "nonexistent-project")
     (js "home/alice/proj/app.py") Fixture.scanner).1 = [] ∧
  (getFileVersions Fixture.posix Fixture.store (js "alice")
     (js "home/alice/proj/other.py") Fixture.scanner).1 = [].
Proof.
  pose proof (queries_on_unknown_names Fixture.posix Fixture.store
                (js "nonexistent-project") (js "home/alice/proj/app.py")
                Fixture.scanner) as [H1 _].
  pose proof (queries_on_unknown_names Fixture.posix Fixture.store
                (js "alice") (js "home/alice/proj/other.py")
                Fixture.scanner) as [_ H2].
  split; [|split].
  - apply H1. by vm_compute.
  - apply H1. by vm_compute.
  - eapply H2; by vm_compute.
Defined.

(** ** Folders that track the same file *)

Lemma tryFolder_record host d showEmptyVersions hp g idx :
  (∃ b l, d (join host hp g) = Some (Dir b l)) →
  tryFolder host d showEmptyVersions (join host hp g) g
    (join host (join host hp g) (js "entries.json")) idx =
  from_option (record host idx) idx (folderEvent host d showEmptyVersions hp g).
Proof.
  intros (b & l & Hdir). unfold tryFolder, folderEvent, survivors, manifestOf.
  rewrite Hdir.
  destruct (readJSON d _) as [data|]; [|done].
  destruct (resource data) as [[|c r]|]; [done| |done].
  destruct (decodePath host (c :: r)) as [q|]; [|done].
  simpl. unfold record. simpl.
  set (n := extractProjectName q).
  set (idx' := if Map_has n idx then idx else Map_set n {| name := n; files := [] |} idx).
  destruct (Map_get n idx') as [p|] eqn:Hp; [|done].
  destruct (entries data) as [es|].
  - by rewrite entryLoop_filter.
  - simpl. by rewrite Map_set_get_id.
Qed.


Lemma fileWith_nil q : fileWith q [] = None.
Proof. done. Qed.



Lemma storeVersions_get_ne host q q' vs p :
  q ≠ q' → Map_get q' (files (storeVersions host q vs p)) = Map_get q' (files p).
Proof.
  intros Hq. unfold storeVersions. destruct vs as [|v vs]; [done|].
  remember (sortVersions host (v :: vs)) as new eqn:Hnew.
  destruct (Map_get q (files p)); simpl.
  - by rewrite Map_get_set_ne.
  - destruct new; [done|]. simpl. by rewrite Map_get_set_ne.
Qed.














(** C4, as the specification states it, fails in three ways.  With a
    name between the two folders that [statSync] cannot examine, the
    scan ends there and the file has the versions of the first folder
    only.  When no entry of either folder survives, the index holds no
    file for the path.  And with a time stamp beyond the range of
    [Date] the merged list is not sorted and [latestTimestamp] is not
    the greatest time stamp: on this host the list stays [50], Invalid
    Date, [100]. *)
Lemma two_folders_merge_needs_provisos :
  let q := js "home/alice/proj/app.py" in
  let versionsOf d :=
    versions <$> fileOf (scanAllFiles Fixture.posix d false Fixture.scanner).1 q in
  (references Fixture.posix Odd.interrupted (js "/h") (js "a") q ∧
   references Fixture.posix Odd.interrupted (js "/h") (js "b") q ∧
   versionsOf Odd.interrupted = Some [Fixture.version "a" "v1" 100]) ∧
  (references Fixture.posix Odd.emptySaves (js "/h") (js "a") q ∧
   references Fixture.posix Odd.emptySaves (js "/h") (js "b") q ∧
   versionsOf Odd.emptySaves = None) ∧
  (references Fixture.posix Odd.farStampTwice (js "/h") (js "a") q ∧
   references Fixture.posix Odd.farStampTwice (js "/h") (js "b") q ∧
   (fmap timestamp <$> versionsOf Odd.farStampTwice) =
     Some [Some 50%Z; None; Some 100%Z] ∧
   (latestTimestamp <$>
      fileOf (scanAllFiles Fixture.posix Odd.farStampTwice false Fixture.scanner).1 q)
     = Some (Some 50%Z)).
Proof.
  intros q versionsOf.
  split; [|split];
    repeat (split;
      [split; [by eexists _, _|];
       eexists _, _, _; split; [reflexivity|]; split; [reflexivity|]; by vm_compute|]);
    by vm_compute.
Qed.



(** ** The scan by reference builds the index of the scan by value *)

Section map_keys.
Context {V : Type}.
Implicit Types (m : list (jsstring * V)) (k : jsstring) (v : V).

Lemma Map_get_None_keys k m : Map_get k m = None ↔ k ∉ m.*1.
Proof.
  induction m as [|[k' v'] m IH]; simpl.
  - split; [intros _; apply not_elem_of_nil|done].
  - rewrite not_elem_of_cons. destruct (decide (k = k')) as [->|Hk].
    + split; [done|]. by intros [? _].
    + rewrite IH. split; [by intros ?|by intros [_ ?]].
Qed.

Lemma Map_get_Some_keys k v m : Map_get k m = Some v → k ∈ m.*1.
Proof.
  intros H. destruct (decide (k ∈ m.*1)) as [|Hn]; [done|].
  apply Map_get_None_keys in Hn. congruence.
Qed.

Lemma Map_set_keys k v m :
  (Map_set k v m).*1 = if Map_get k m is Some _ then m.*1 else m.*1 ++ [k].
Proof.
  induction m as [|[k' v'] m IH]; csimpl; [done|].
  destruct (decide (k = k')) as [->|Hk]; csimpl; [done|].
  rewrite IH. by destruct (Map_get k m).
Qed.

Lemma Map_set_NoDup k v m : NoDup m.*1 → NoDup (Map_set k v m).*1.
Proof.
  intros Hm. rewrite Map_set_keys.
  destruct (Map_get k m) eqn:Hk; [done|].
  apply Map_get_None_keys in Hk.
  apply NoDup_app. split; [done|]. split; [|apply NoDup_singleton].
  intros x Hx ->%list_elem_of_singleton. done.
Qed.
End map_keys.

Lemma Map_get_same_keys {A B} (m1 : list (jsstring * A)) (m2 : list (jsstring * B)) k :
  m1.*1 = m2.*1 → Map_get k m1 = None ↔ Map_get k m2 = None.
Proof. intros H. by rewrite !Map_get_None_keys, H. Qed.

Lemma Map_set_same_keys {A B} (m1 : list (jsstring * A)) (m2 : list (jsstring * B)) k a b :
  m1.*1 = m2.*1 → (Map_set k a m1).*1 = (Map_set k b m2).*1.
Proof.
  intros H. rewrite !Map_set_keys, H.
  pose proof (Map_get_same_keys m1 m2 k H) as Hk.
  destruct (Map_get k m1), (Map_get k m2); try done.
  - discriminate (proj2 Hk eq_refl).
  - discriminate (proj1 Hk eq_refl).
Qed.

Lemma fileCell_kept n0 h h' n q l f :
  fileCell n0 h n q l f → keepsFile h h' q → fileCell n0 h' n q l f.
Proof.
  intros (Hp & Hn & vl & -> & Hvl & Hl & Ha) Hk.
  destruct (Hk _ _ _ Hl Ha) as [Hl' Ha'].
  split; [done|]. split; [done|]. by exists vl.
Qed.

Lemma repFiles_set n0 h h' n fm fs q l f :
  repFiles n0 h n fm fs →
  (∀ q', q' ≠ q → keepsFile h h' q') →
  fileCell n0 h' n q l f →
  repFiles n0 h' n (Map_set q l fm) (Map_set q f fs).
Proof.
  intros (Hkeys & Hnd & Hcells) Hkeep Hnew.
  split; [by apply Map_set_same_keys|]. split; [by apply Map_set_NoDup|].
  intros q' l' f'. destruct (decide (q = q')) as [<-|Hq].
  - rewrite !Map_get_set_eq. by intros [= <-] [= <-].
  - rewrite !Map_get_set_ne by done. intros Hl' Hf'.
    eapply fileCell_kept; [by eapply Hcells|]. by apply Hkeep.
Qed.

Lemma repFiles_kept n0 h h' n fm fs :
  repFiles n0 h n fm fs → (∀ q, keepsFile h h' q) → repFiles n0 h' n fm fs.
Proof.
  intros (Hkeys & Hnd & Hcells) Hkeep.
  split; [done|]. split; [done|].
  intros q l f Hl Hf. eapply fileCell_kept; [by eapply Hcells|]. apply Hkeep.
Qed.

Lemma repFiles_kept_project n0 h h' n fm fs q0 :
  repFiles n0 h n fm fs → extractProjectName q0 ≠ n →
  (∀ q, q ≠ q0 → keepsFile h h' q) → repFiles n0 h' n fm fs.
Proof.
  intros (Hkeys & Hnd & Hcells) Hn Hkeep.
  split; [done|]. split; [done|].
  intros q l f Hl Hf. pose proof (Hcells _ _ _ Hl Hf) as Hc.
  eapply fileCell_kept; [done|]. apply Hkeep.
  intros ->. by destruct Hc as (_ & ? & _).
Qed.

Lemma projCell_kept n0 h h' k pl p q0 :
  projCell n0 h k pl p →
  keepsProject h h' k →
  extractProjectName q0 ≠ k →
  (∀ q, q ≠ q0 → keepsFile h h' q) →
  projCell n0 h' k pl p.
Proof.
  intros (Hname & fl & fm & -> & Hfl & Hp & Hf & Hfiles) Hkp Hq0 Hkf.
  destruct (Hkp _ _ Hp Hf) as [Hp' Hf'].
  split; [done|]. exists fl, fm. repeat (split; [done|]).
  by eapply repFiles_kept_project.
Qed.

Lemma repIndex_set n0 h h' P pm idx n pl p q0 :
  (n0 ≤ P)%nat →
  pm.*1 = idx.*1 → NoDup pm.*1 →
  (∀ k pl p, Map_get k pm = Some pl → Map_get k idx = Some p → projCell n0 h k pl p) →
  extractProjectName q0 = n →
  (∀ k, k ≠ n → keepsProject h h' k) →
  (∀ q, q ≠ q0 → keepsFile h h' q) →
  h' !! P = Some (Ref.OIndex (Map_set n pl pm)) →
  projCell n0 h' n pl p →
  repIndex n0 h' P (Map_set n p idx).
Proof.
  intros HP Hkeys Hnd Hcells Hq0 Hkp Hkf HP' Hnew.
  split; [done|]. exists (Map_set n pl pm).
  split; [done|]. split; [by apply Map_set_same_keys|].
  split; [by apply Map_set_NoDup|].
  intros k pl' p'. destruct (decide (n = k)) as [<-|Hk].
  - rewrite !Map_get_set_eq. by intros [= <-] [= <-].
  - rewrite !Map_get_set_ne by done. intros Hl' Hp'.
    eapply projCell_kept; [by eapply Hcells| |by rewrite Hq0|done].
    by apply Hkp.
Qed.

#[local] Arguments sortVersions : simpl never.

(** Running the store operations. *)
Lemma bind_ret {A B} (a : A) (k : A → Ref.M B) h : Ref.bind (Ref.ret a) k h = k a h.
Proof. done. Qed.

Lemma bind_lift_Normal {A B} (a : A) (k : A → Ref.M B) h :
  Ref.bind (Ref.lift (Normal a)) k h = k a h.
Proof. done. Qed.

Lemma bind_alloc {B} o (k : Ref.loc → Ref.M B) h :
  Ref.bind (Ref.alloc o) k h = k (length h) (h ++ [o]).
Proof. done. Qed.

Lemma bind_write {B} l o (k : unit → Ref.M B) h :
  Ref.bind (Ref.write l o) k h = k tt (<[l:=o]> h).
Proof. done. Qed.

Lemma bind_readIndex {B} l m (k : _ → Ref.M B) h :
  h !! l = Some (Ref.OIndex m) → Ref.bind (Ref.readIndex l) k h = k m h.
Proof. intros H. unfold Ref.bind, Ref.readIndex. by rewrite H. Qed.

Lemma bind_readProject {B} l n f (k : _ → Ref.M B) h :
  h !! l = Some (Ref.OProject n f) → Ref.bind (Ref.readProject l) k h = k (n, f) h.
Proof. intros H. unfold Ref.bind, Ref.readProject. by rewrite H. Qed.

Lemma bind_readFiles {B} l m (k : _ → Ref.M B) h :
  h !! l = Some (Ref.OFiles m) → Ref.bind (Ref.readFiles l) k h = k m h.
Proof. intros H. unfold Ref.bind, Ref.readFiles. by rewrite H. Qed.

Lemma bind_readFile {B} l p v t (k : _ → Ref.M B) h :
  h !! l = Some (Ref.OFile p v t) → Ref.bind (Ref.readFile l) k h = k (p, v, t) h.
Proof. intros H. unfold Ref.bind, Ref.readFile. by rewrite H. Qed.

Lemma bind_readArray {B} l vs (k : _ → Ref.M B) h :
  h !! l = Some (Ref.OArray vs) → Ref.bind (Ref.readArray l) k h = k vs h.
Proof. intros H. unfold Ref.bind, Ref.readArray. by rewrite H. Qed.

Lemma bind_sortArray {B} host a vs (k : unit → Ref.M B) h :
  h !! a = Some (Ref.OArray vs) →
  Ref.bind (Ref.sortArray host a) k h = k tt (<[a:=Ref.OArray (sortVersions host vs)]> h).
Proof. intros H. unfold Ref.sortArray, Ref.bind, Ref.readArray, Ref.write. by rewrite H. Qed.

Lemma bind_pushAll {B} a old vs (k : unit → Ref.M B) h :
  h !! a = Some (Ref.OArray old) →
  Ref.bind (Ref.pushAll a vs) k h = k tt (<[a:=Ref.OArray (old ++ vs)]> h).
Proof. intros H. unfold Ref.pushAll, Ref.bind, Ref.readArray, Ref.write. by rewrite H. Qed.

Lemma bind_headTimestamp {B} a v0 vs (k : Date → Ref.M B) h :
  h !! a = Some (Ref.OArray (v0 :: vs)) →
  Ref.bind (Ref.headTimestamp a) k h = k (timestamp v0) h.
Proof. intros H. unfold Ref.headTimestamp, Ref.bind, Ref.readArray. by rewrite H. Qed.

(** Two locations differ when the store holds objects of different
    shapes at them, or when one of them lies beyond the store. *)
Ltac loc_facts :=
  repeat match goal with
         | H : ?h !! ?l = Some _ |- _ =>
             lazymatch goal with
             | _ : (l < length h)%nat |- _ => fail
             | _ => pose proof (lookup_lt_Some _ _ _ H)
             end
         end.

Ltac loc_neq :=
  let E := fresh "E" in
  intros E; loc_facts; simplify_eq; lia.

Lemma keepsFile_refl h q : keepsFile h h q.
Proof. by intros vl t vs ? ?. Qed.

Lemma keepsProject_refl h k : keepsProject h h k.
Proof. by intros fl fm ? ?. Qed.

Lemma keepsFile_trans h1 h2 h3 q :
  keepsFile h1 h2 q → keepsFile h2 h3 q → keepsFile h1 h3 q.
Proof. intros H12 H23 vl t vs Hl Ha. destruct (H12 _ _ _ Hl Ha). by apply H23. Qed.

Lemma keepsProject_trans h1 h2 h3 k :
  keepsProject h1 h2 k → keepsProject h2 h3 k → keepsProject h1 h3 k.
Proof. intros H12 H23 fl fm Hl Ha. destruct (H12 _ _ Hl Ha). by apply H23. Qed.

Lemma keepsFile_app h k q : keepsFile h (h ++ k) q.
Proof. intros vl t vs Hl Ha. split; by apply lookup_app_l_Some. Qed.

Lemma keepsProject_app h k n : keepsProject h (h ++ k) n.
Proof. intros fl fm Hl Ha. split; by apply lookup_app_l_Some. Qed.

(** A write at [w] keeps the cells of every file when [w] holds a map or
    a project record, or an array that no file record follows. *)
Lemma keepsFile_insert_other h w o o' q :
  h !! w = Some o →
  match o with
  | Ref.OArray _ => h !! S w = None ∨ ∃ vs, h !! S w = Some (Ref.OArray vs)
  | Ref.OFile _ _ _ => False
  | _ => True
  end →
  keepsFile h (<[w:=o']> h) q.
Proof.
  intros Hw Ho vl t vs Hl Ha.
  split; (rewrite list_lookup_insert_ne; [done|]); intros ->.
  - rewrite Hl in Hw. by simplify_eq.
  - rewrite Ha in Hw. simplify_eq. destruct Ho as [Ho|[? Ho]]; congruence.
Qed.

(** A write to the array or the record of the file of [q0] keeps the
    cells of the files of all other paths. *)
Lemma keepsFile_insert_array h vl0 q0 t0 vs0 o' q :
  h !! S vl0 = Some (Ref.OFile q0 vl0 t0) → h !! vl0 = Some (Ref.OArray vs0) → q ≠ q0 →
  keepsFile h (<[vl0:=o']> h) q.
Proof.
  intros H0 H0' Hq vl t vs Hl Ha.
  split; (rewrite list_lookup_insert_ne; [done|]); intros ->.
  - congruence.
  - rewrite Hl in H0. by simplify_eq.
Qed.

Lemma keepsFile_insert_file h vl0 q0 t0 o' q :
  h !! S vl0 = Some (Ref.OFile q0 vl0 t0) → q ≠ q0 →
  keepsFile h (<[S vl0:=o']> h) q.
Proof.
  intros H0 Hq vl t vs Hl Ha.
  split; (rewrite list_lookup_insert_ne; [done|]).
  - intros [= ->]. rewrite Hl in H0. by simplify_eq.
  - intros <-. congruence.
Qed.

(** A write at [w] keeps the cells of every project when [w] holds an
    array, a file record or the index. *)
Lemma keepsProject_insert_other h w o o' k :
  h !! w = Some o →
  match o with
  | Ref.OProject _ _ | Ref.OFiles _ => False
  | _ => True
  end →
  keepsProject h (<[w:=o']> h) k.
Proof.
  intros Hw Ho fl fm Hl Ha.
  split; (rewrite list_lookup_insert_ne; [done|]); intros ->.
  - rewrite Hl in Hw. by simplify_eq.
  - rewrite Ha in Hw. by simplify_eq.
Qed.

Lemma keepsProject_insert_files h fl0 n0 fm0 o' k :
  h !! S fl0 = Some (Ref.OProject n0 fl0) → h !! fl0 = Some (Ref.OFiles fm0) → k ≠ n0 →
  keepsProject h (<[fl0:=o']> h) k.
Proof.
  intros H0 H0' Hk fl fm Hl Ha.
  split; (rewrite list_lookup_insert_ne; [done|]); intros ->.
  - congruence.
  - rewrite Hl in H0. by simplify_eq.
Qed.

Lemma sortVersions_cons_inv host v vs : ∃ v0 r, sortVersions host (v :: vs) = v0 :: r.
Proof.
  destruct (sortVersions host (v :: vs)) as [|v0 r] eqn:Hs; [|by eauto].
  by apply sortVersions_nil_inv in Hs.
Qed.

Lemma storeVersions_name host q vs p : name (storeVersions host q vs p) = name p.
Proof.
  unfold storeVersions. destruct vs as [|v vs]; [done|].
  destruct (Map_get q (files p)); [done|].
  by destruct (sortVersions host (v :: vs)).
Qed.

Lemma Ref_storeVersions_spec host n0 h P idx q a pl vs :
  let n := extractProjectName q in
  repIndex n0 h P idx →
  (∃ pm, h !! P = Some (Ref.OIndex pm) ∧ Map_get n pm = Some pl) →
  length h = S a → (n0 ≤ a)%nat → h !! a = Some (Ref.OArray vs) →
  ∃ h' p,
    Map_get n idx = Some p ∧
    Ref.storeVersions host q a pl h = (Normal tt, h') ∧
    repIndex n0 h' P (Map_set n (storeVersions host q vs p) idx) ∧
    take n0 h' = take n0 h ∧ (length h ≤ length h')%nat.
Proof.
  intros n (HP0 & pm & HP & Hkeys & Hnd & Hcells) (pm' & HP' & Hpl) Hlen Ha0 Ha.
  rewrite HP in HP'. injection HP' as <-.
  destruct (Map_get n idx) as [p|] eqn:Hp.
  2: { apply (Map_get_same_keys pm idx n Hkeys) in Hp. congruence. }
  pose proof (Hcells _ _ _ Hpl Hp) as (Hname & fl & fm & -> & Hfl0 & Hproj & Hfiles & Hrep).
  unfold Ref.storeVersions. rewrite (bind_readArray _ _ _ _ Ha).
  destruct vs as [|v vs].
  { exists h, p. split; [done|]. split; [done|]. simpl.
    rewrite Map_set_get_id by done.
    split; [|done]. split; [done|]. by exists pm. }
  destruct (sortVersions_cons_inv host v vs) as (v0 & r & Hsort).
  rewrite (bind_sortArray _ _ _ _ _ Ha).
  set (h1 := <[a:=Ref.OArray (sortVersions host (v :: vs))]> h).
  assert (Hlen1 : length h1 = S a) by (unfold h1; by rewrite length_insert).
  assert (Ha1 : h1 !! a = Some (Ref.OArray (sortVersions host (v :: vs)))).
  { unfold h1. apply list_lookup_insert_eq. lia. }
  assert (Hother1 : ∀ l o, l ≠ a → h !! l = Some o → h1 !! l = Some o).
  { intros l o Hl Ho. unfold h1. by rewrite list_lookup_insert_ne. }
  assert (Hproj1 : h1 !! S fl = Some (Ref.OProject n fl)) by (apply Hother1; [loc_neq|done]).
  assert (Hfiles1 : h1 !! fl = Some (Ref.OFiles fm)) by (apply Hother1; [loc_neq|done]).
  assert (Hkf1 : ∀ q', keepsFile h h1 q').
  { intros q'. eapply keepsFile_insert_other; [done|]. left.
    apply lookup_ge_None. lia. }
  assert (Hkp1 : ∀ k, keepsProject h h1 k).
  { intros k. by eapply keepsProject_insert_other. }
  assert (Htake1 : take n0 h1 = take n0 h) by (unfold h1; by apply take_insert_ge).
  rewrite (bind_readProject _ _ _ _ _ Hproj1), (bind_readFiles _ _ _ _ Hfiles1).
  destruct Hrep as (Hfkeys & Hfnd & Hfcells).
  destruct (Map_get q fm) as [l|] eqn:Hl.
  - (* a file for [q] exists: merge *)
    destruct (Map_get q (files p)) as [f|] eqn:Hf.
    2: { apply (Map_get_same_keys fm (files p) q Hfkeys) in Hf. congruence. }
    pose proof (Hfcells _ _ _ Hl Hf) as (Hpath & _ & vl & -> & Hvl0 & Hfile & Harr).
    assert (Hfile1 : h1 !! S vl = Some (Ref.OFile q vl (latestTimestamp f)))
      by (apply Hother1; [loc_neq|done]).
    assert (Harr1 : h1 !! vl = Some (Ref.OArray (versions f)))
      by (apply Hother1; [loc_neq|done]).
    rewrite (bind_readFile _ _ _ _ _ _ Hfile1), (bind_readArray _ _ _ _ Ha1).
    rewrite (bind_pushAll _ _ _ _ _ Harr1).
    set (h2 := <[vl:=Ref.OArray (versions f ++ sortVersions host (v :: vs))]> h1).
    assert (Harr2 : h2 !! vl = Some (Ref.OArray (versions f ++ sortVersions host (v :: vs)))).
    { unfold h2. apply list_lookup_insert_eq. loc_facts. lia. }
    rewrite (bind_sortArray _ _ _ _ _ Harr2).
    set (all := sortVersions host (versions f ++ sortVersions host (v :: vs))).
    set (h3 := <[vl:=Ref.OArray all]> h2).
    assert (Hall : ∃ w0 r0, all = w0 :: r0).
    { destruct all as [|w0 r0] eqn:Hall; [|by eauto].
      apply sortVersions_nil_inv, app_eq_nil in Hall as [_ Hall]. congruence. }
    destruct Hall as (w0 & r0 & Hall).
    assert (Harr3 : h3 !! vl = Some (Ref.OArray (w0 :: r0))).
    { unfold h3. rewrite <- Hall. apply list_lookup_insert_eq.
      unfold h2. rewrite length_insert. loc_facts. lia. }
    rewrite (bind_headTimestamp _ _ _ _ _ Harr3).
    set (h4 := <[S vl:=Ref.OFile q vl (timestamp w0)]> h3).
    exists h4, p. split; [done|]. split; [done|].
    assert (Hfile3 : h3 !! S vl = Some (Ref.OFile q vl (latestTimestamp f))).
    { unfold h3, h2. rewrite !list_lookup_insert_ne by lia. done. }
    assert (Hkf : ∀ q', q' ≠ q → keepsFile h h4 q').
    { intros q' Hq'.
      eapply keepsFile_trans; [apply Hkf1|].
      eapply keepsFile_trans; [by eapply keepsFile_insert_array|].
      eapply keepsFile_trans.
      { eapply keepsFile_insert_array; [|done|done].
        unfold h2. rewrite list_lookup_insert_ne by lia. done. }
      by eapply keepsFile_insert_file. }
    assert (Hkp : ∀ k, keepsProject h h4 k).
    { intros k.
      eapply keepsProject_trans; [apply Hkp1|].
      eapply keepsProject_trans; [by eapply keepsProject_insert_other|].
      eapply keepsProject_trans; [by eapply keepsProject_insert_other|].
      by eapply keepsProject_insert_other. }
    split; [|split].
    + eapply (repIndex_set n0 h h4 P pm idx n (S fl) _ q); try done.
      * unfold h4, h3, h2, h1.
        rewrite !list_lookup_insert_ne by loc_neq.
        by rewrite Map_set_get_id.
      * split; [by rewrite storeVersions_name|].
        exists fl, fm. split; [done|]. split; [done|].
        destruct (Hkp n _ _ Hproj Hfiles) as [Hproj4 Hfiles4].
        split; [done|]. split; [done|].
        unfold storeVersions. rewrite Hf. simpl.
        rewrite <- (Map_set_get_id q (S vl) fm Hl) at 1.
        eapply repFiles_set; [by split|done|].
        split; [done|]. split; [done|]. exists vl. split; [done|]. split; [done|].
        simpl. fold all. rewrite Hall. split.
        -- unfold h4. apply list_lookup_insert_eq.
           unfold h3, h2. rewrite !length_insert. loc_facts. lia.
        -- unfold h4. rewrite list_lookup_insert_ne by lia. done.
    + unfold h4, h3, h2. rewrite !take_insert_ge by lia. done.
    + unfold h4, h3, h2, h1. rewrite !length_insert. done.
  - (* no file for [q] yet: create it *)
    assert (Hf : Map_get q (files p) = None)
      by (by apply (Map_get_same_keys fm (files p) q Hfkeys)).
    rewrite Hsort in Ha1.
    rewrite (bind_headTimestamp _ _ _ _ _ Ha1), bind_alloc.
    set (h2 := h1 ++ [Ref.OFile q a (timestamp v0)]).
    assert (Hfiles2 : h2 !! fl = Some (Ref.OFiles fm)) by (by apply lookup_app_l_Some).
    rewrite (bind_readFiles _ _ _ _ Hfiles2).
    rewrite Hlen1.
    set (h3 := <[fl:=Ref.OFiles (Map_set q (S a) fm)]> h2).
    exists h3, p. split; [done|]. split; [done|].
    assert (Hkf : ∀ q', keepsFile h h3 q').
    { intros q'.
      eapply keepsFile_trans; [apply Hkf1|].
      eapply keepsFile_trans; [apply keepsFile_app|].
      by eapply keepsFile_insert_other. }
    assert (Hkp : ∀ k, k ≠ n → keepsProject h h3 k).
    { intros k Hk.
      eapply keepsProject_trans; [apply Hkp1|].
      eapply keepsProject_trans; [apply keepsProject_app|].
      eapply keepsProject_insert_files; [|done|done].
      by apply lookup_app_l_Some. }
    split; [|split].
    + eapply (repIndex_set n0 h h3 P pm idx n (S fl) _ q); try done.
      * unfold h3, h2, h1.
        rewrite list_lookup_insert_ne by loc_neq.
        apply lookup_app_l_Some.
        rewrite list_lookup_insert_ne by loc_neq.
        by rewrite Map_set_get_id.
      * split; [by rewrite storeVersions_name|].
        exists fl, (Map_set q (S a) fm). split; [done|]. split; [done|].
        split.
        { unfold h3. rewrite list_lookup_insert_ne by lia. by apply lookup_app_l_Some. }
        split.
        { unfold h3. apply list_lookup_insert_eq. unfold h2. rewrite length_app.
          loc_facts. lia. }
        unfold storeVersions. rewrite Hf, Hsort. simpl.
        eapply repFiles_set; [by split|done|].
        split; [done|]. split; [done|]. exists a. split; [done|]. split; [done|].
        simpl. split.
        -- unfold h3. rewrite list_lookup_insert_ne by (loc_facts; lia).
           unfold h2. rewrite <- Hlen1. apply list_lookup_middle. done.
        -- unfold h3. rewrite list_lookup_insert_ne by loc_neq.
           by apply lookup_app_l_Some.
    + unfold h3, h2. rewrite take_insert_ge by lia.
      rewrite take_app_le by lia. done.
    + unfold h3, h2, h1. rewrite length_insert, length_app, length_insert. lia.
Qed.

Lemma repIndex_kept n0 h h' P idx :
  repIndex n0 h P idx →
  (∀ q, keepsFile h h' q) → (∀ k, keepsProject h h' k) →
  h' !! P = h !! P →
  repIndex n0 h' P idx.
Proof.
  intros (HP0 & pm & HP & Hkeys & Hnd & Hcells) Hkf Hkp HP'.
  split; [done|]. exists pm. split; [by rewrite HP'|]. split; [done|]. split; [done|].
  intros k pl p Hpl Hp.
  destruct (Hcells _ _ _ Hpl Hp) as (Hname & fl & fm & -> & Hfl & Hproj & Hfiles & Hrep).
  destruct (Hkp k _ _ Hproj Hfiles) as [Hproj' Hfiles'].
  split; [done|]. exists fl, fm. repeat (split; [done|]).
  by eapply repFiles_kept.
Qed.

(** Lines 124-129: get or create the project. *)
Lemma Ref_ensureProject_spec n0 h P idx pm q :
  let n := extractProjectName q in
  repIndex n0 h P idx → h !! P = Some (Ref.OIndex pm) →
  ∃ h' pm' pl,
    (if Map_has n pm then Ref.ret tt
     else Ref.bind (Ref.alloc (Ref.OFiles []))
            (λ files, Ref.bind (Ref.alloc (Ref.OProject n files))
               (λ project, Ref.bind (Ref.readIndex P)
                  (λ pm, Ref.write P (Ref.OIndex (Map_set n project pm)))))) h
      = (Normal tt, h') ∧
    h' !! P = Some (Ref.OIndex pm') ∧ Map_get n pm' = Some pl ∧
    repIndex n0 h' P (if Map_has n idx then idx
                      else Map_set n {| name := n; files := [] |} idx) ∧
    take n0 h' = take n0 h ∧ (length h ≤ length h')%nat.
Proof.
  intros n Hrep HP.
  pose proof Hrep as (HP0 & pm0 & HP' & Hkeys & Hnd & Hcells).
  rewrite HP in HP'. injection HP' as <-.
  assert (Hhas : Map_has n idx = Map_has n pm).
  { destruct (Map_has n pm) eqn:Hn.
    - apply Map_has_true. apply Map_has_true in Hn.
      destruct (Map_get n idx) eqn:Hi; [done|].
      apply (Map_get_same_keys pm idx n Hkeys) in Hi. rewrite Hi in Hn. by destruct Hn.
    - apply Map_has_false. apply Map_has_false in Hn.
      by apply (Map_get_same_keys pm idx n Hkeys). }
  rewrite Hhas. destruct (Map_has n pm) eqn:Hn.
  - apply Map_has_true in Hn as [pl Hpl]. by exists h, pm, pl.
  - rewrite !bind_alloc. loc_facts.
    set (fl := length h).
    set (h1 := (h ++ [Ref.OFiles []]) ++ [Ref.OProject n fl]).
    assert (Hlen1 : length (h ++ [Ref.OFiles []]) = S fl).
    { rewrite length_app. simpl. unfold fl. lia. }
    rewrite Hlen1.
    assert (HP1 : h1 !! P = Some (Ref.OIndex pm)) by (by do 2 apply lookup_app_l_Some).
    rewrite (bind_readIndex _ _ _ _ HP1). unfold Ref.write.
    set (h2 := <[P:=Ref.OIndex (Map_set n (S fl) pm)]> h1).
    assert (Hlen2 : length h2 = S (S fl)).
    { unfold h2, h1. rewrite length_insert, !length_app. simpl. unfold fl. lia. }
    assert (HP2 : h2 !! P = Some (Ref.OIndex (Map_set n (S fl) pm))).
    { unfold h2. apply list_lookup_insert_eq. by eapply lookup_lt_Some. }
    exists h2, (Map_set n (S fl) pm), (S fl).
    split; [done|]. split; [done|]. split; [apply Map_get_set_eq|].
    assert (Hfl2 : h2 !! fl = Some (Ref.OFiles [])).
    { unfold h2. rewrite list_lookup_insert_ne by (unfold fl; lia).
      unfold h1. apply lookup_app_l_Some. by apply list_lookup_middle. }
    assert (Hpl2 : h2 !! S fl = Some (Ref.OProject n fl)).
    { unfold h2. rewrite list_lookup_insert_ne by (unfold fl; lia).
      unfold h1. by apply list_lookup_middle. }
    split; [|split].
    + eapply (repIndex_set n0 h h2 P pm idx n (S fl) _ q); try done.
      * intros k _. eapply keepsProject_trans; [apply keepsProject_app|].
        eapply keepsProject_trans; [apply keepsProject_app|].
        by eapply keepsProject_insert_other.
      * intros q' _. eapply keepsFile_trans; [apply keepsFile_app|].
        eapply keepsFile_trans; [apply keepsFile_app|].
        by eapply keepsFile_insert_other.
      * split; [done|]. exists fl, []. split; [done|].
        split; [unfold fl; lia|]. split; [done|]. split; [done|].
        split; [done|]. split; [constructor|]. intros ? ? ? [=].
    + unfold h2, h1. rewrite take_insert_ge by done.
      rewrite !take_app_le; [done|lia|rewrite length_app; lia].
    + lia.
Qed.

(** One folder: the [try] statement of the scan by reference leaves the
    store holding what the scan by value computes, and writes nothing
    below [n0]. *)
Lemma Ref_folderBody_spec n0 h P idx host d showEmptyVersions folderPath folderName jsonFile :
  repIndex n0 h P idx →
  ∃ h',
    Ref.try (Ref.folderBody host d showEmptyVersions folderPath folderName jsonFile P) h
      = (Normal tt, h') ∧
    repIndex n0 h' P
      (tryFolder host d showEmptyVersions folderPath folderName jsonFile idx) ∧
    take n0 h' = take n0 h ∧ (length h ≤ length h')%nat.
Proof.
  intros Hrep. unfold Ref.try.
  remember (Ref.folderBody host d showEmptyVersions folderPath folderName jsonFile P h)
    as res eqn:Hres.
  exists res.2. split; [done|].
  unfold Ref.folderBody in Hres. unfold tryFolder.
  destruct (readJSON d jsonFile) as [data|]; [|by subst res].
  rewrite bind_lift_Normal in Hres.
  destruct (resource data) as [[|c r]|]; [by subst res| |by subst res].
  destruct (decodePath host (c :: r)) as [q|]; [|by subst res].
  rewrite bind_lift_Normal in Hres.
  set (n := extractProjectName q) in *.
  pose proof Hrep as (HP0 & pm & HP & _).
  rewrite (bind_readIndex _ _ _ _ HP) in Hres.
  destruct (Ref_ensureProject_spec n0 h P idx pm q Hrep HP)
    as (h1 & pm1 & pl & Hrun1 & HP1 & Hpl & Hrep1 & Htake1 & Hlen1).
  fold n in Hrun1, Hpl, Hrep1.
  set (idx1 := if Map_has n idx then idx
               else Map_set n {| name := n; files := [] |} idx) in *.
  unfold Ref.bind at 1 in Hres. rewrite Hrun1 in Hres.
  rewrite (bind_readIndex _ _ _ _ HP1), Hpl in Hres. simpl from_option in Hres.
  rewrite bind_lift_Normal, bind_alloc in Hres.
  set (a := length h1) in *.
  set (h2 := h1 ++ [Ref.OArray []]) in *.
  assert (Hrep2 : repIndex n0 h2 P idx1).
  { eapply repIndex_kept; [done|intros; apply keepsFile_app
                           |intros; apply keepsProject_app|].
    unfold h2. rewrite HP1. by apply lookup_app_l_Some. }
  assert (Htake2 : take n0 h2 = take n0 h).
  { unfold h2. rewrite take_app_le; [done|]. loc_facts. lia. }
  assert (Hlen2 : length h2 = S a).
  { unfold h2. rewrite length_app. simpl. unfold a. lia. }
  assert (Hp : ∃ p, Map_get n idx1 = Some p).
  { destruct Hrep1 as (_ & pm1' & HP1' & Hkeys1 & _).
    rewrite HP1 in HP1'. injection HP1' as <-.
    destruct (Map_get n idx1) eqn:Hi; [by eauto|].
    apply (Map_get_same_keys pm1 idx1 n Hkeys1) in Hi. congruence. }
  destruct Hp as [p Hp]. rewrite Hp.
  destruct (entries data) as [es|]; simpl from_option in Hres.
  2: { subst res. simpl. split; [done|]. split; [done|]. lia. }
  rewrite bind_lift_Normal, entryLoop_filter, bind_lift_Normal in Hres.
  rewrite entryLoop_filter.
  rewrite app_nil_l in *.
  set (vs := recordOf host folderPath folderName <$> _) in *.
  assert (Ha2 : h2 !! a = Some (Ref.OArray [])) by (by apply list_lookup_middle).
  rewrite (bind_pushAll _ _ _ _ _ Ha2), app_nil_l in Hres.
  set (h3 := <[a:=Ref.OArray vs]> h2) in *.
  assert (Hlen3 : length h3 = S a) by (unfold h3; by rewrite length_insert).
  assert (Ha3 : h3 !! a = Some (Ref.OArray vs)).
  { unfold h3. apply list_lookup_insert_eq. lia. }
  assert (HP3 : h3 !! P = Some (Ref.OIndex pm1)).
  { unfold h3. rewrite list_lookup_insert_ne by loc_neq.
    by apply lookup_app_l_Some. }
  assert (Hrep3 : repIndex n0 h3 P idx1).
  { eapply repIndex_kept; [exact Hrep2| | |].
    - intros q'. eapply keepsFile_insert_other; [done|]. left.
      apply lookup_ge_None. lia.
    - intros k. by eapply keepsProject_insert_other.
    - unfold h3. by rewrite list_lookup_insert_ne by loc_neq. }
  assert (Ha0 : (n0 ≤ a)%nat) by (loc_facts; unfold a; lia).
  destruct (Ref_storeVersions_spec host n0 h3 P idx1 q a pl vs Hrep3) as
    (h4 & p' & Hp' & Hrun4 & Hrep4 & Htake4 & Hlen4); [by eauto|done|done|done|].
  fold n in Hp', Hrep4. rewrite Hp in Hp'. injection Hp' as <-.
  rewrite Hrun4 in Hres. subst res. simpl. split; [done|]. split.
  - rewrite Htake4. unfold h3. by rewrite take_insert_ge.
  - lia.
Qed.

Lemma Ref_folderLoop_spec n0 h P idx host d showEmptyVersions hp folders :
  repIndex n0 h P idx →
  ∃ r h',
    Ref.folderLoop host d showEmptyVersions hp folders P h = (r, h') ∧
    repIndex n0 h' P (folderLoop host d showEmptyVersions hp folders idx) ∧
    take n0 h' = take n0 h ∧ (length h ≤ length h')%nat.
Proof.
  revert h idx. induction folders as [|g folders IH]; intros h idx Hrep.
  { by exists (Normal tt), h. }
  simpl. destruct (statSync d (join host hp g)) as [st|e].
  2: { by exists (Throw e), h. }
  rewrite bind_lift_Normal.
  destruct (negb (isDirectory st)); [by apply IH|].
  destruct (negb (existsSync d _)); [by apply IH|].
  destruct (Ref_folderBody_spec n0 h P idx host d showEmptyVersions
              (join host hp g) g (join host (join host hp g) (js "entries.json")) Hrep)
    as (h1 & Hrun1 & Hrep1 & Htake1 & Hlen1).
  unfold Ref.bind at 1. rewrite Hrun1.
  destruct (IH h1 _ Hrep1) as (r & h2 & Hrun2 & Hrep2 & Htake2 & Hlen2).
  exists r, h2. split; [done|]. split; [done|]. split; [congruence|lia].
Qed.

(** The scan by reference returns a new map at the end of the store,
    leaves the store it started from untouched, and what it built reads
    as the index of the scan by value. *)
Lemma Ref_scanAllFiles_spec host d showEmptyVersions hp c c' h :
  ∃ h',
    Ref.scanAllFiles host d showEmptyVersions
      {| Ref.historyPath := hp; Ref.cache := c |} h
      = (Normal (length h,
                 {| Ref.historyPath := hp;
                    Ref.cache := if existsSync d hp then Some (length h) else c |}), h') ∧
    repIndex (length h) h' (length h)
      (scanAllFiles host d showEmptyVersions
         {| historyPath := hp; cache := c' |}).1 ∧
    take (length h) h' = h.
Proof.
  unfold Ref.scanAllFiles, scanAllFiles, historyExists. simpl.
  assert (Hempty : repIndex (length h) (h ++ [Ref.OIndex []]) (length h) []).
  { split; [done|]. exists []. split; [by apply list_lookup_middle|].
    split; [done|]. split; [constructor|]. intros ? ? ? [=]. }
  destruct (existsSync d hp); simpl.
  - rewrite bind_alloc. unfold Ref.bind at 1, Ref.try.
    unfold Ref.bind at 1.
    destruct (readdirSync d hp) as [folders|e]; simpl.
    + destruct (Ref_folderLoop_spec (length h) _ (length h) [] host d
                  showEmptyVersions hp folders Hempty)
        as (r & h' & Hrun & Hrep & Htake & Hlen).
      rewrite Hrun. simpl. exists h'. split; [done|]. split; [done|].
      rewrite Htake. apply take_app_length.
    + exists (h ++ [Ref.OIndex []]). split; [done|]. split; [done|].
      apply take_app_length.
  - rewrite bind_alloc. exists (h ++ [Ref.OIndex []]).
    split; [done|]. split; [done|]. apply take_app_length.
Qed.

(** Reading the index back. *)
Lemma same_keys_Forall2 {A B} (R : jsstring → A → B → Prop)
    (m1 : list (jsstring * A)) (m2 : list (jsstring * B)) :
  m1.*1 = m2.*1 → NoDup m1.*1 →
  (∀ k a b, Map_get k m1 = Some a → Map_get k m2 = Some b → R k a b) →
  Forall2 (λ x y, x.1 = y.1 ∧ R x.1 x.2 y.2) m1 m2.
Proof.
  revert m2. induction m1 as [|[k a] m1 IH]; intros [|[k' b] m2] Hkeys Hnd HR;
    try done.
  csimpl in *. injection Hkeys as <- Hkeys.
  apply NoDup_cons in Hnd as [Hk Hnd].
  constructor.
  - split; [done|]. apply HR; simpl; by rewrite decide_True.
  - apply IH; [done|done|]. intros k1 a1 b1 Ha1 Hb1.
    apply HR; simpl; rewrite decide_False; try done.
    + intros ->. apply Hk. by eapply Map_get_Some_keys.
    + intros ->. apply Hk. by eapply Map_get_Some_keys.
Qed.

Lemma fileCell_fileAt n0 h n q l f : fileCell n0 h n q l f → Ref.fileAt h l = Some f.
Proof.
  intros (Hpath & _ & vl & -> & _ & Hl & Ha).
  unfold Ref.fileAt, Ref.arrayAt. rewrite Hl, Ha. simpl.
  destruct f. simpl in *. by subst.
Qed.

Lemma repFiles_filesAt n0 h n fl fm fs :
  h !! fl = Some (Ref.OFiles fm) → repFiles n0 h n fm fs → Ref.filesAt h fl = Some fs.
Proof.
  intros Hfl (Hkeys & Hnd & Hcells). unfold Ref.filesAt. rewrite Hfl.
  apply mapM_Some_2.
  eapply Forall2_impl; [by apply (same_keys_Forall2 (fileCell n0 h n))|].
  intros [q l] [q' f] [Hq Hc]. simpl in *. subst q'.
  by rewrite (fileCell_fileAt _ _ _ _ _ _ Hc).
Qed.

Lemma projCell_projectAt n0 h k pl p : projCell n0 h k pl p → Ref.projectAt h pl = Some p.
Proof.
  intros (Hname & fl & fm & -> & _ & Hp & Hf & Hrep).
  unfold Ref.projectAt. rewrite Hp, (repFiles_filesAt _ _ _ _ _ _ Hf Hrep). simpl.
  destruct p. simpl in *. by subst.
Qed.

Lemma repIndex_indexAt n0 h P idx : repIndex n0 h P idx → Ref.indexAt h P = Some idx.
Proof.
  intros (_ & pm & HP & Hkeys & Hnd & Hcells). unfold Ref.indexAt. rewrite HP.
  apply mapM_Some_2.
  eapply Forall2_impl; [by apply (same_keys_Forall2 (projCell n0 h))|].
  intros [k l] [k' p] [Hk Hc]. simpl in *. subst k'.
  by rewrite (projCell_projectAt _ _ _ _ _ Hc).
Qed.

(** ** Scanner states and queries by reference *)

Lemma repIndex_weaken n0 n1 h P idx :
  (n0 ≤ n1)%nat → repIndex n1 h P idx → repIndex n0 h P idx.
Proof.
  intros Hn (HP0 & pm & HP & Hkeys & Hnd & Hcells).
  split; [lia|]. exists pm. repeat (split; [done|]).
  intros k pl p Hpl Hp.
  destruct (Hcells _ _ _ Hpl Hp) as (Hname & fl & fm & -> & Hfl & Hproj & Hfiles & Hrep).
  split; [done|]. exists fl, fm. split; [done|]. split; [lia|].
  repeat (split; [done|]).
  destruct Hrep as (Hfk & Hfnd & Hfc). repeat (split; [done|]).
  intros q l f Hl Hf.
  destruct (Hfc _ _ _ Hl Hf) as (? & ? & vl & -> & ? & ? & ?).
  repeat (split; [done|]). exists vl. split; [done|]. split; [lia|]. done.
Qed.

Lemma repIndex_app n0 h k P idx : repIndex n0 h P idx → repIndex n0 (h ++ k) P idx.
Proof.
  intros Hrep. eapply repIndex_kept; [done| | |].
  - intros q. apply keepsFile_app.
  - intros n. apply keepsProject_app.
  - destruct Hrep as (_ & pm & HP & _). rewrite HP. by apply lookup_app_l_Some.
Qed.

Lemma Ref_ensureCache_spec n0 host d this thisV h :
  repScanner n0 h this thisV → (n0 ≤ length h)%nat →
  ∃ this' h',
    Ref.ensureCache host d this h = (Normal this', h') ∧
    repScanner n0 h' this' (ensureCache host d thisV) ∧
    take (length h) h' = h.
Proof.
  intros [Hhp Hc] Hn0. unfold Ref.ensureCache, ensureCache.
  destruct this as [hp c], thisV as [hp' c']. simpl in *. subst hp'.
  destruct c as [c|], c' as [idx|]; try done.
  - exists {| Ref.historyPath := hp; Ref.cache := Some c |}, h.
    split; [done|]. split; [done|]. by rewrite take_ge.
  - destruct (Ref_scanAllFiles_spec host d false hp None None h)
      as (h' & Hrun & Hrep & Htake).
    unfold Ref.bind. rewrite Hrun. simpl.
    eexists _, h'. split; [done|]. split; [|done].
    split; [by (unfold scanAllFiles, historyExists; simpl; destruct (existsSync d hp))|].
    revert Hrep. unfold scanAllFiles, historyExists. simpl.
    destruct (existsSync d hp); simpl; [|done].
    by apply repIndex_weaken.
Qed.

(** [getFilesForProject] by reference returns a map that reads as the
    result by value; it lies at or above [n0] and nothing that was in
    the store is written. *)
Lemma Ref_getFilesForProject_spec n0 host d projectName this thisV h :
  repScanner n0 h this thisV → (n0 ≤ length h)%nat →
  ∃ files this' h',
    Ref.getFilesForProject host d projectName this h = (Normal (files, this'), h') ∧
    Ref.filesAt h' files = Some (getFilesForProject host d projectName thisV).1 ∧
    repScanner n0 h' this' (getFilesForProject host d projectName thisV).2 ∧
    take (length h) h' = h ∧ (n0 ≤ files < length h')%nat.
Proof.
  intros Hrep Hn0.
  destruct (Ref_ensureCache_spec n0 host d this thisV h Hrep Hn0)
    as (this1 & h1 & Hrun1 & [Hhp1 Hc1] & Htake1).
  assert (HV : getFilesForProject host d projectName thisV =
               (match cache (ensureCache host d thisV) with
                | Some c => match Map_get projectName c with
                            | Some project => files project
                            | None => []
                            end
                | None => []
                end, ensureCache host d thisV)) by done.
  rewrite HV. clear HV. cbn [fst snd].
  set (thisV1 := ensureCache host d thisV) in *.
  unfold Ref.getFilesForProject.
  unfold Ref.bind at 1. rewrite Hrun1.
  assert (Hlen1 : (length h ≤ length h1)%nat).
  { rewrite <- Htake1 at 1. rewrite length_take. lia. }
  assert (Hfresh :
    ∃ files this' h',
      Ref.bind (Ref.alloc (Ref.OFiles [])) (λ empty, Ref.ret (empty, this1)) h1
        = (Normal (files, this'), h') ∧
      Ref.filesAt h' files = Some [] ∧ repScanner n0 h' this' thisV1 ∧
      take (length h) h' = h ∧ (n0 ≤ files < length h')%nat).
  { rewrite bind_alloc.
    exists (length h1), this1, (h1 ++ [Ref.OFiles []]).
    split; [done|]. split.
    { unfold Ref.filesAt. by rewrite list_lookup_middle. }
    split.
    { split; [done|]. destruct (Ref.cache this1), (cache thisV1); try done.
      by apply repIndex_app. }
    split; [|rewrite length_app; simpl; lia].
    rewrite take_app_le by lia. done. }
  destruct (Ref.cache this1) as [c|] eqn:Hcache;
    destruct (cache thisV1) as [idx|] eqn:HcacheV; try done.
  pose proof Hc1 as (HP0 & pm & HP & Hkeys & Hnd & Hcells).
  rewrite (bind_readIndex _ _ _ _ HP).
  destruct (Map_get projectName pm) as [pl|] eqn:Hpl.
  - destruct (Map_get projectName idx) as [p|] eqn:Hp.
    2: { apply (Map_get_same_keys pm idx _ Hkeys) in Hp. congruence. }
    destruct (Hcells _ _ _ Hpl Hp) as (Hname & fl & fm & -> & Hfl & Hproj & Hfiles & Hfrep).
    rewrite (bind_readProject _ _ _ _ _ Hproj).
    exists fl, this1, h1. split; [done|].
    split; [by eapply repFiles_filesAt|].
    split; [split; [done|]; by rewrite Hcache, HcacheV|].
    split; [done|]. loc_facts. lia.
  - apply (Map_get_same_keys pm idx _ Hkeys) in Hpl. rewrite Hpl.
    apply Hfresh.
Qed.

Lemma prefix_lookup_Some (h h' : Ref.heap) l o :
  take (length h) h' = h → h !! l = Some o → h' !! l = Some o.
Proof.
  intros Htake Hl. rewrite <- (take_drop (length h) h'), Htake.
  by apply lookup_app_l_Some.
Qed.

Lemma filesAt_prefix (h h' : Ref.heap) l m :
  take (length h) h' = h → Ref.filesAt h l = Some m → Ref.filesAt h' l = Some m.
Proof.
  intros Htake. unfold Ref.filesAt.
  destruct (h !! l) as [[| |fm| |]|] eqn:Hl; try done.
  rewrite (prefix_lookup_Some _ _ _ _ Htake Hl).
  rewrite !mapM_Some. intros HF. eapply Forall2_impl; [exact HF|].
  clear HF. intros [q fl] [q' f]. simpl.
  unfold Ref.fileAt, Ref.arrayAt.
  destruct (h !! fl) as [[| | |p v t|]|] eqn:Hfl; try done.
  rewrite (prefix_lookup_Some _ _ _ _ Htake Hfl).
  destruct (h !! v) as [[| | | |vs]|] eqn:Hv; try done.
  by rewrite (prefix_lookup_Some _ _ _ _ Htake Hv).
Qed.

(** ** Rebuilding *)

Lemma ensureCache_historyPath host d this :
  historyPath (ensureCache host d this) = historyPath this.
Proof.
  unfold ensureCache. destruct (cache this); [done|].
  unfold scanAllFiles. by destruct (negb (historyExists d this)).
Qed.

(** C6: two scans of the same disk, the second one run by the scanner
    and in the store the first one left, build indexes that read the
    same: the same projects, files and version lists in the same order,
    namely the index of the scan by value. *)
Theorem rebuild_reads_as_same_index host d showEmptyVersions hp c h0 :
  ∃ p1 this1 h1 p2 this2 h2 idx,
    Ref.scanAllFiles host d showEmptyVersions
      {| Ref.historyPath := hp; Ref.cache := c |} h0 = (Normal (p1, this1), h1) ∧
    Ref.scanAllFiles host d showEmptyVersions this1 h1 = (Normal (p2, this2), h2) ∧
    Ref.indexAt h1 p1 = Some idx ∧
    Ref.indexAt h2 p2 = Some idx ∧
    idx = (scanAllFiles host d showEmptyVersions {| historyPath := hp; cache := None |}).1.
Proof.
  destruct (Ref_scanAllFiles_spec host d showEmptyVersions hp c None h0)
    as (h1 & Hrun1 & Hrep1 & _).
  destruct (Ref_scanAllFiles_spec host d showEmptyVersions hp
              (if existsSync d hp then Some (length h0) else c) None h1)
    as (h2 & Hrun2 & Hrep2 & _).
  eexists _, _, h1, _, _, h2, _.
  split; [exact Hrun1|]. split; [exact Hrun2|].
  split; [by eapply repIndex_indexAt|].
  split; [by eapply repIndex_indexAt|]. done.
Qed.

Lemma take_prefix (h h' : Ref.heap) : take (length h) h' = h → h `prefix_of` h'.
Proof.
  intros Htake. exists (drop (length h) h').
  rewrite <- Htake at 1. by rewrite take_drop.
Qed.

Lemma repScanner_prefix n0 h h' this thisV :
  take (length h) h' = h → repScanner n0 h this thisV → repScanner n0 h' this thisV.
Proof.
  intros Htake [Hhp Hc]. split; [done|].
  destruct (Ref.cache this), (cache thisV); try done.
  rewrite <- (take_drop (length h) h'), Htake. by apply repIndex_app.
Qed.

(** Later calls only extend the store, and leave the scanner holding a
    reference to a well-formed index. *)
Lemma Ref_step_spec n0 host c this h :
  (∃ thisV, repScanner n0 h this thisV) → (n0 ≤ length h)%nat →
  (∃ thisV, repScanner n0 (Ref.step host (this, h) c).2 (Ref.step host (this, h) c).1 thisV) ∧
  take (length h) (Ref.step host (this, h) c).2 = h.
Proof.
  intros [thisV Hrep] Hn0. destruct c as [d b| |d projectName]; simpl.
  - destruct this as [hp c]. pose proof Hrep as [Hhp Hc]. simpl in Hhp, Hc.
    destruct (Ref_scanAllFiles_spec host d b hp c None h) as (h' & Hrun & Hidx & Htake).
    rewrite Hrun. simpl. split; [|done].
    destruct (existsSync d hp) eqn:Hex.
    + exists {| historyPath := hp;
                cache := Some (scanAllFiles host d b {| historyPath := hp; cache := None |}).1 |}.
      split; [done|]. simpl. by eapply repIndex_weaken.
    + exists thisV. by eapply repScanner_prefix.
  - split; [|by rewrite take_ge]. exists (clearCache thisV).
    destruct Hrep as [Hhp _]. by split.
  - destruct (Ref_getFilesForProject_spec n0 host d projectName this thisV h Hrep Hn0)
      as (files & this' & h' & Hrun & _ & Hrep' & Htake & _).
    rewrite Hrun. simpl. split; [by eauto|done].
Qed.

Lemma Ref_run_spec n0 host cs this h :
  (∃ thisV, repScanner n0 h this thisV) → (n0 ≤ length h)%nat →
  (∃ thisV, repScanner n0 (Ref.run host cs (this, h)).2 (Ref.run host cs (this, h)).1 thisV) ∧
  take (length h) (Ref.run host cs (this, h)).2 = h.
Proof.
  revert this h. induction cs as [|c cs IH]; intros this h Hrep Hn0.
  { simpl. split; [done|]. by rewrite take_ge. }
  destruct (Ref_step_spec n0 host c this h Hrep Hn0) as [Hrep1 Htake1].
  unfold Ref.run. simpl. fold (Ref.run host cs (Ref.step host (this, h) c)).
  destruct (Ref.step host (this, h) c) as [this1 h1]. simpl in *.
  assert (Hlen1 : (length h ≤ length h1)%nat).
  { rewrite <- Htake1 at 1. rewrite length_take. lia. }
  destruct (IH this1 h1 Hrep1) as [Hrep2 Htake2]; [lia|].
  split; [done|].
  rewrite <- Htake2 in Htake1. rewrite take_take in Htake1.
  by rewrite Nat.min_l in Htake1.
Qed.

(** C10: the map [getFilesForProject] returned is an object of the
    store as it was then.  Whatever calls follow (scans of any disk,
    [clearCache], further queries), the store is only extended: the map
    and the version lists it leads to read as before.  After a
    [clearCache] and a scan the new index lies beyond the old store, and
    so does every map [getFilesForProject] then returns. *)
Theorem returned_files_survive_rebuild host d1 name1 hp h0 :
  let thisV := {| historyPath := hp; cache := None |} in
  ∃ files this1 h1,
    Ref.getFilesForProject host d1 name1
      {| Ref.historyPath := hp; Ref.cache := None |} h0 = (Normal (files, this1), h1) ∧
    Ref.filesAt h1 files = Some (getFilesForProject host d1 name1 thisV).1 ∧
    (files < length h1)%nat ∧
    (∀ cs,
       h1 `prefix_of` (Ref.run host cs (this1, h1)).2 ∧
       Ref.filesAt (Ref.run host cs (this1, h1)).2 files
         = Some (getFilesForProject host d1 name1 thisV).1) ∧
    (∀ cs d2 showEmptyVersions d3 name2,
       let s := Ref.run host cs (this1, h1) in
       ∃ p2 this2 h2 files2 this3 h3,
         Ref.scanAllFiles host d2 showEmptyVersions (Ref.clearCache s.1) s.2
           = (Normal (p2, this2), h2) ∧
         Ref.getFilesForProject host d3 name2 this2 h2 = (Normal (files2, this3), h3) ∧
         (length h1 ≤ p2)%nat ∧ (length h1 ≤ files2)%nat ∧
         Ref.filesAt h3 files = Some (getFilesForProject host d1 name1 thisV).1).
Proof.
  intros thisV.
  destruct (Ref_getFilesForProject_spec 0 host d1 name1
              {| Ref.historyPath := hp; Ref.cache := None |} thisV h0)
    as (files & this1 & h1 & Hrun1 & Hfiles1 & Hrep1 & Htake1 & Hrange1);
    [done|lia|].
  exists files, this1, h1. split; [done|]. split; [done|]. split; [lia|].
  assert (Hlater : ∀ cs,
    (∃ thisV', repScanner 0 (Ref.run host cs (this1, h1)).2
                 (Ref.run host cs (this1, h1)).1 thisV') ∧
    take (length h1) (Ref.run host cs (this1, h1)).2 = h1).
  { intros cs. apply Ref_run_spec; [by eauto|lia]. }
  split.
  { intros cs. destruct (Hlater cs) as [_ Htake].
    split; [by apply take_prefix|by eapply filesAt_prefix]. }
  intros cs d2 b d3 name2 s.
  destruct (Hlater cs) as [[thisVs [Hhps _]] Htakes]. fold s in Hhps, Htakes.
  destruct s as [[hps cs'] hs]. simpl in *.
  assert (Hlens : (length h1 ≤ length hs)%nat).
  { rewrite <- Htakes at 1. rewrite length_take. lia. }
  destruct (Ref_scanAllFiles_spec host d2 b hps None None hs)
    as (h2 & Hrun2 & Hrep2 & Htake2).
  set (this2 := {| Ref.historyPath := hps;
                   Ref.cache := if existsSync d2 hps then Some (length hs) else None |}) in *.
  set (thisV2 := (scanAllFiles host d2 b {| historyPath := hps; cache := None |}).2).
  assert (Hlen2 : (length hs ≤ length h2)%nat).
  { rewrite <- Htake2 at 1. rewrite length_take. lia. }
  assert (Hscanner2 : repScanner (length hs) h2 this2 thisV2).
  { unfold this2, thisV2, scanAllFiles, historyExists in *. simpl in *.
    split; [by destruct (existsSync d2 hps)|].
    by destruct (existsSync d2 hps). }
  destruct (Ref_getFilesForProject_spec (length hs) host d3 name2 this2 thisV2 h2
              Hscanner2 Hlen2)
    as (files2 & this3 & h3 & Hrun3 & _ & _ & Htake3 & Hrange3).
  exists (length hs), this2, h2, files2, this3, h3.
  split; [done|]. split; [done|]. split; [lia|]. split; [lia|].
  eapply filesAt_prefix; [exact Htake3|].
  eapply filesAt_prefix; [exact Htake2|].
  by eapply filesAt_prefix.
Qed.

(** * Further properties of the scanner and its callers *)

(** ** Strings *)

Lemma split_cons_inv sep s : ∃ p ps, split sep s = p :: ps.
Proof.
  induction s as [|c s (p & ps & IH)]; simpl; [by eauto|].
  destruct (c =? sep); [by eauto|]. rewrite IH. by eauto.
Qed.

Lemma split_elem sep s p x : p ∈ split sep s → x ∈ p → x ∈ s ∧ x ≠ sep.
Proof.
  revert p. induction s as [|c s IH]; simpl; intros p Hp Hx.
  - apply list_elem_of_singleton in Hp as ->. by apply elem_of_nil in Hx.
  - destruct (N.eqb_spec c sep) as [->|Hc].
    + apply elem_of_cons in Hp as [->|Hp]; [by apply elem_of_nil in Hx|].
      destruct (IH p Hp Hx). split; [by right|done].
    + destruct (split_cons_inv sep s) as (q & qs & Hq). rewrite Hq in *.
      apply elem_of_cons in Hp as [->|Hp].
      * apply elem_of_cons in Hx as [->|Hx]; [split; [by left|done]|].
        destruct (IH q) as [? ?]; [by left|done|]. split; [by right|done].
      * destruct (IH p) as [? ?]; [by right|done|]. split; [by right|done].
Qed.

Lemma replaceAll_elem x y s c : c ∈ replaceAll x y s → c ≠ x ∨ c = y.
Proof.
  unfold replaceAll. intros (c' & -> & _)%list_elem_of_fmap.
  destruct (N.eqb_spec c' x); [by right|by left].
Qed.

Lemma pathParts_segment filePath p :
  p ∈ pathParts filePath → p ≠ [] ∧ (SLASH ∉ p) ∧ (BACKSLASH ∉ p) ∧ isDrive p = false.
Proof.
  unfold pathParts. intros [Hseg Hp]%list_elem_of_filter.
  unfold isSegment in Hseg. apply andb_true_iff in Hseg as [Hne Hdrive].
  apply negb_true_iff, bool_decide_eq_false in Hne.
  apply negb_true_iff in Hdrive.
  split; [done|]. split; [|split; [|done]].
  - intros Hx. by destruct (split_elem _ _ _ _ Hp Hx).
  - intros Hx. destruct (split_elem _ _ _ _ Hp Hx) as [Hin _].
    by destruct (replaceAll_elem _ _ _ _ Hin).
Qed.

(** ** The inferred project name *)

(** X1: the project name is never empty and holds no path separator; it
    is one of the segments of the path (neither empty nor a drive), or
    the text ["Unknown Project"] when fewer than two segments are left. *)
Theorem extractProjectName_is_segment filePath :
  let r := extractProjectName filePath in
  r ≠ [] ∧ (SLASH ∉ r) ∧ (BACKSLASH ∉ r) ∧
  (r ∈ pathParts filePath ∨
   (r = js "Unknown Project" ∧ (length (pathParts filePath) < 2)%nat)).
Proof.
  intros r.
  assert (Hcases : r ∈ pathParts filePath ∨
            (r = js "Unknown Project" ∧ (length (pathParts filePath) < 2)%nat)).
  { unfold r, extractProjectName.
    destruct (firstUnskipped (pathParts filePath)) as [part|] eqn:Hfirst.
    - left. by apply firstUnskipped_Some in Hfirst as [? _].
    - case_bool_decide as Hlen; [left|right; split; [done|lia]].
      destruct (lookup_lt_is_Some_2 (pathParts filePath)
                  (length (pathParts filePath) - 2)) as [x Hx]; [lia|].
      rewrite Hx. simpl. by eapply list_elem_of_lookup_2. }
  destruct Hcases as [Hin|[Hr Hlen]].
  - destruct (pathParts_segment _ _ Hin) as (? & ? & ? & _). by repeat split; [..|left].
  - rewrite Hr. split; [done|]. split; [|split; [|by right]].
    + apply (bool_decide_unpack _). by vm_compute.
    + apply (bool_decide_unpack _). by vm_compute.
Qed.

(** ** Decoding without escapes *)

Lemma replaceFirst_unfold pat rep s :
  replaceFirst pat rep s =
  if startsWith pat s then rep ++ drop (length pat) s
  else match s with
       | [] => []
       | c :: s' => c :: replaceFirst pat rep s'
       end.
Proof. by destruct s. Qed.

Lemma startsWith_app pat s : startsWith pat (pat ++ s) = true.
Proof. induction pat as [|p pat IH]; simpl; [done|]. by rewrite N.eqb_refl. Qed.

Lemma replaceFirst_prefix pat s : replaceFirst pat [] (pat ++ s) = s.
Proof.
  rewrite replaceFirst_unfold, startsWith_app. simpl. by rewrite drop_app_length.
Qed.

Lemma tokens_plain s : PERCENT ∉ s → tokens s = Normal (Lit <$> s).
Proof.
  induction s as [|c s IH]; simpl; intros Hs; [done|].
  apply not_elem_of_cons in Hs as [Hc Hs].
  destruct (N.eqb_spec c PERCENT) as [->|_]; [done|].
  by rewrite IH.
Qed.

Lemma decodeTokens_plain s : decodeTokens (Lit <$> s) = Normal s.
Proof. induction s as [|c s IH]; csimpl; [done|]. by rewrite IH. Qed.

Lemma decodeURIComponent_plain s : PERCENT ∉ s → decodeURIComponent s = Normal s.
Proof.
  intros Hs. unfold decodeURIComponent. rewrite tokens_plain by done. simpl.
  apply decodeTokens_plain.
Qed.

(** X2: off Windows, a [file:///] reference without escapes decodes to
    exactly what follows the three slashes: the slash that starts the
    path of the URI is removed with the scheme, so the decoded path of
    [file:///home/alice/app.py] is [home/alice/app.py]. *)
Theorem decodePath_plain_drops_scheme_and_slash host s :
  win32 host = false → PERCENT ∉ s →
  decodePath host (js "file:///" ++ s) = Normal s.
Proof.
  intros Hwin Hs. unfold decodePath.
  rewrite replaceFirst_prefix, decodeURIComponent_plain by done. simpl.
  by rewrite Hwin.
Qed.

Lemma decodePath_plain_witness :
  decodePath Fixture.posix (js "file:///" ++ js "home/alice/proj/app.py")
    = Normal (js "home/alice/proj/app.py").
Proof.
  apply decodePath_plain_drops_scheme_and_slash; [done|].
  apply (bool_decide_unpack _). by vm_compute.
Defined.

Lemma upperUnit_law c u :
  u ∈ upperUnit c → ¬ (97 ≤ u ≤ 122) ∧ (u = SLASH → c = SLASH).
Proof.
  unfold upperUnit, SLASH.
  destruct ((97 <=? c) && (c <=? 122)) eqn:H1.
  { apply andb_true_iff in H1 as [?%N.leb_le ?%N.leb_le].
    intros ->%list_elem_of_singleton. lia. }
  destruct ((224 <=? c) && (c <=? 254) && negb (c =? 247)) eqn:H2.
  { apply andb_true_iff in H2 as [[?%N.leb_le ?%N.leb_le]%andb_true_iff _].
    intros ->%list_elem_of_singleton. lia. }
  destruct (N.eqb_spec c 223).
  { intros Hx. repeat (apply elem_of_cons in Hx as [->|Hx]; [lia|]).
    by apply elem_of_nil in Hx. }
  destruct (N.eqb_spec c 255). { intros ->%list_elem_of_singleton. lia. }
  destruct (N.eqb_spec c 181). { intros ->%list_elem_of_singleton. lia. }
  intros ->%list_elem_of_singleton.
  apply andb_false_iff in H1 as [H1|H1]; apply N.leb_gt in H1; lia.
Qed.

(** X3: on Windows, with a [toUpperCase] that yields no lower-case
    ASCII letter and a slash only from a slash, the decoded path holds
    no forward slash, and when it starts with a drive (a colon in second
    place, and more after it) the drive letter is not a lower-case ASCII
    letter. *)
Theorem decodePath_win32_normal_form host resourcePath q :
  win32 host = true → upperCaseLaw host →
  decodePath host resourcePath = Normal q →
  (SLASH ∉ q) ∧
  ∀ c y rest, q = c :: COLON :: y :: rest → ¬ (97 ≤ c ≤ 122).
Proof.
  intros Hwin Hlaw. unfold decodePath.
  destruct (decodeURIComponent _) as [decoded|]; simpl; [|done].
  rewrite Hwin.
  set (w := replaceAll SLASH BACKSLASH decoded).
  assert (Hw : SLASH ∉ w).
  { intros [H|H]%replaceAll_elem; done. }
  clearbody w. destruct w as [|c0 [|c1 [|c2 w]]].
  - intros [= <-]. split; [done|]. by intros ? ? ? [=].
  - intros [= <-]. split; [done|]. by intros ? ? ? [=].
  - intros [= <-]. split; [done|]. by intros ? ? ? [=].
  - assert (Hc0 : c0 ≠ SLASH) by (intros ->; apply Hw; by left).
    assert (Hrest : SLASH ∉ c1 :: c2 :: w).
    { intros H. apply Hw. by right. }
    destruct (N.eqb_spec c1 COLON) as [->|Hc1].
    + intros [= <-]. simpl. split.
      * intros [Hx|Hx]%elem_of_app; [|done].
        destruct (Hlaw _ _ Hx) as [_ Hs]. by apply Hc0, Hs.
      * intros c y rest Heq. destruct (upper host c0) as [|u us] eqn:Hu.
        { simpl in Heq. injection Heq as <- _. unfold COLON. lia. }
        simpl in Heq. injection Heq as <- _.
        apply (Hlaw c0 u). rewrite Hu. by left.
    + intros [= <-]. split; [done|]. intros c y rest [= -> -> _ _]. done.
Qed.

Lemma decodePath_win32_witness :
  let q := js "C:\Users\alice\app.py" in
  decodePath Fixture.windows (js "file:///c%3A/Users/alice/app.py") = Normal q ∧
  (SLASH ∉ q) ∧ ¬ (97 ≤ 67 ≤ 122).
Proof.
  intros q.
  assert (Hd : decodePath Fixture.windows (js "file:///c%3A/Users/alice/app.py") = Normal q)
    by (by vm_compute).
  destruct (decodePath_win32_normal_form Fixture.windows _ q eq_refl upperUnit_law Hd)
    as [Hs Hc].
  split; [exact Hd|]. split; [exact Hs|].
  exact (Hc 67 (N_of_ascii "\"%char) (js "Users\alice\app.py") eq_refl).
Defined.

(** ** Keys of the index *)

Lemma storeVersions_keyed host q vs p :
  NoDup (files p).*1 →
  Forall (λ kf : jsstring * RecoverableFile,
            originalPath kf.2 = kf.1 ∧ extractProjectName kf.1 = extractProjectName q)
         (files p) →
  NoDup (files (storeVersions host q vs p)).*1 ∧
  Forall (λ kf : jsstring * RecoverableFile,
            originalPath kf.2 = kf.1 ∧ extractProjectName kf.1 = extractProjectName q)
         (files (storeVersions host q vs p)).
Proof.
  intros Hnd Hall. unfold storeVersions. destruct vs as [|v vs]; [done|].
  remember (sortVersions host (v :: vs)) as new eqn:Hnew.
  destruct (Map_get q (files p)) as [f|] eqn:Hf; simpl.
  - split; [by apply Map_set_NoDup|]. apply Map_set_Forall; [done|]. simpl.
    apply Map_get_elem in Hf. rewrite Forall_forall in Hall.
    by destruct (Hall _ Hf).
  - destruct new as [|v0 new]; [done|]. simpl.
    split; [by apply Map_set_NoDup|]. by apply Map_set_Forall.
Qed.

Lemma tryFolder_wellKeyed host d showEmptyVersions folderPath folderName jsonFile idx :
  wellKeyed idx →
  wellKeyed (tryFolder host d showEmptyVersions folderPath folderName jsonFile idx).
Proof.
  intros Hidx. unfold tryFolder.
  destruct (readJSON d jsonFile) as [data|]; [|done].
  destruct (resource data) as [[|c r]|]; [done| |done].
  destruct (decodePath host (c :: r)) as [q|]; [|done].
  set (n := extractProjectName q).
  set (idx1 := if Map_has n idx then idx
               else Map_set n {| name := n; files := [] |} idx).
  assert (Hidx1 : wellKeyed idx1).
  { unfold idx1. destruct (Map_has n idx); [done|]. destruct Hidx as [Hnd Hall].
    split; [by apply Map_set_NoDup|]. apply Map_set_Forall; [done|]. simpl.
    split; [done|]. split; constructor. }
  destruct (Map_get n idx1) as [project|] eqn:Hn; [|done].
  destruct (entries data) as [es|]; [|done].
  destruct (entryLoop _ _ _ _ _ _ _) as [vs|]; [|done].
  destruct Hidx1 as [Hnd Hall].
  split; [by apply Map_set_NoDup|]. apply Map_set_Forall; [done|]. simpl.
  apply Map_get_elem in Hn. rewrite Forall_forall in Hall.
  destruct (Hall _ Hn) as (Hname & Hfnd & Hfiles). simpl in *.
  destruct (storeVersions_keyed host q vs project Hfnd Hfiles) as [? ?].
  by rewrite storeVersions_name.
Qed.

Lemma folderLoop_wellKeyed host d showEmptyVersions hp folders idx :
  wellKeyed idx → wellKeyed (folderLoop host d showEmptyVersions hp folders idx).
Proof.
  revert idx. induction folders as [|g folders IH]; intros idx Hidx; simpl; [done|].
  destruct (statSync d _) as [st|]; [|done].
  destruct (negb (isDirectory st)); [by apply IH|].
  destruct (negb (existsSync d _)); [by apply IH|].
  by apply IH, tryFolder_wellKeyed.
Qed.

Lemma scanAllFiles_wellKeyed host d showEmptyVersions this :
  wellKeyed (scanAllFiles host d showEmptyVersions this).1.
Proof.
  assert (Hnil : wellKeyed []) by (split; constructor).
  unfold scanAllFiles. destruct (negb (historyExists d this)); simpl; [done|].
  destruct (readdirSync d (historyPath this)); [|done].
  by apply folderLoop_wellKeyed.
Qed.

Lemma wellKeyed_lookup idx n p q f :
  wellKeyed idx → Map_get n idx = Some p → Map_get q (files p) = Some f →
  name p = n ∧ originalPath f = q ∧ extractProjectName q = n.
Proof.
  intros [_ Hall] Hp Hf. rewrite Forall_forall in Hall.
  destruct (Hall _ (Map_get_elem _ _ _ Hp)) as (Hname & _ & Hfiles). simpl in *.
  rewrite Forall_forall in Hfiles.
  destruct (Hfiles _ (Map_get_elem _ _ _ Hf)) as [? ?]. done.
Qed.

(** X4: in every index a scan builds, no project name and, within a
    project, no path is stored twice; each project is stored under its
    own [name], each file under its own [originalPath], and only in the
    project that [extractProjectName] infers from that path. *)
Theorem scanAllFiles_index_is_well_keyed host d showEmptyVersions this :
  let idx := (scanAllFiles host d showEmptyVersions this).1 in
  NoDup idx.*1 ∧
  (∀ n p, Map_get n idx = Some p → name p = n ∧ NoDup (files p).*1) ∧
  (∀ n p q f, Map_get n idx = Some p → Map_get q (files p) = Some f →
              originalPath f = q ∧ n = extractProjectName q).
Proof.
  intros idx. pose proof (scanAllFiles_wellKeyed host d showEmptyVersions this) as Hwk.
  fold idx in Hwk. split; [by destruct Hwk|]. split.
  - intros n p Hp. destruct Hwk as [_ Hall]. rewrite Forall_forall in Hall.
    by destruct (Hall _ (Map_get_elem _ _ _ Hp)) as (? & ? & _).
  - intros n p q f Hp Hf.
    by destruct (wellKeyed_lookup _ _ _ _ _ Hwk Hp Hf) as (_ & ? & ?).
Qed.

Lemma scanAllFiles_index_is_well_keyed_witness :
  let idx := (scanAllFiles Fixture.posix Fixture.store false Fixture.scanner).1 in
  ∃ p f, Map_get (js "alice") idx = Some p ∧
         Map_get (js "home/alice/proj/app.py") (files p) = Some f ∧
         name p = js "alice" ∧ originalPath f = js "home/alice/proj/app.py".
Proof.
  intros idx.
  destruct (Map_get (js "alice") idx) as [p|] eqn:Hp; [|by vm_compute in Hp].
  destruct (Map_get (js "home/alice/proj/app.py") (files p)) as [f|] eqn:Hf.
  2: { vm_compute in Hp. injection Hp as <-. by vm_compute in Hf. }
  destruct (scanAllFiles_index_is_well_keyed Fixture.posix Fixture.store false
              Fixture.scanner) as (_ & Hproj & Hfile).
  exists p, f. split; [done|]. split; [done|].
  split; [exact (proj1 (Hproj _ _ Hp))|exact (proj1 (Hfile _ _ _ _ Hp Hf))].
Defined.

(** X5: a path is found only under the project inferred from it:
    [getFileVersions] asked for a path under any other project name
    returns an empty list, whatever the disk holds. *)
Theorem getFileVersions_other_project_is_empty host d hp projectName filePath :
  projectName ≠ extractProjectName filePath →
  (getFileVersions host d projectName filePath
     {| historyPath := hp; cache := None |}).1 = [].
Proof.
  intros Hne. unfold getFileVersions, getFilesForProject, ensureCache. simpl.
  pose proof (scanAllFiles_wellKeyed host d false {| historyPath := hp; cache := None |})
    as Hwk.
  destruct (cache (scanAllFiles host d false {| historyPath := hp; cache := None |}).2)
    as [c|] eqn:Hc; simpl; [|done].
  assert (c = (scanAllFiles host d false {| historyPath := hp; cache := None |}).1) as ->.
  { revert Hc. unfold scanAllFiles. destruct (negb _); simpl; [done|]. by intros [= <-]. }
  destruct (Map_get projectName _) as [p|] eqn:Hp; simpl; [|done].
  destruct (Map_get filePath (files p)) as [f|] eqn:Hf; [|done].
  by destruct (wellKeyed_lookup _ _ _ _ _ Hwk Hp Hf) as (_ & _ & ?).
Qed.

Lemma getFileVersions_other_project_witness :
  (getFileVersions Fixture.posix Fixture.store (js "proj") (js "home/alice/proj/app.py")
     Fixture.scanner).1 = [].
Proof.
  apply (getFileVersions_other_project_is_empty Fixture.posix Fixture.store (js "/h")).
  by vm_compute.
Defined.

(** ** A listed name that cannot be examined *)

Lemma folderLoop_stops host d showEmptyVersions hp pre g post idx :
  d (join host hp g) = None →
  folderLoop host d showEmptyVersions hp (pre ++ g :: post) idx =
  folderLoop host d showEmptyVersions hp pre idx.
Proof.
  intros Hg. revert idx. induction pre as [|g' pre IH]; intros idx; simpl.
  - unfold statSync. by rewrite Hg.
  - destruct (statSync d _) as [st|]; [|done].
    destruct (negb (isDirectory st)); [by apply IH|].
    destruct (negb (existsSync d _)); by apply IH.
Qed.

(** X6: a name in the listing of the history root that [statSync]
    cannot examine ends the scan: the folders listed after it are not
    read, and the index returned and cached is the one the folders
    listed before it built. *)
Theorem scan_stops_at_unexaminable_name host d showEmptyVersions this pre g post :
  historyExists d this = true →
  readdirSync d (historyPath this) = Normal (pre ++ g :: post) →
  d (join host (historyPath this) g) = None →
  let idx := folderLoop host d showEmptyVersions (historyPath this) pre [] in
  scanAllFiles host d showEmptyVersions this =
  (idx, {| historyPath := historyPath this; cache := Some idx |}).
Proof.
  intros Hex Hdir Hg idx. unfold scanAllFiles. rewrite Hex, Hdir. simpl.
  by rewrite folderLoop_stops.
Qed.

Lemma scan_stops_at_unexaminable_name_witness :
  (scanAllFiles Fixture.posix Broken.store false Fixture.scanner).1.*1 = [js "alice"].
Proof.
  rewrite (scan_stops_at_unexaminable_name Fixture.posix Broken.store false
             Fixture.scanner [js "a"] (js "b") [js "c"]); by vm_compute.
Defined.

(** ** Where version records come from *)







(** ** Queries on a scanner that has not scanned yet *)





(** ** The list of project names *)

Lemma codeUnitsBefore_irrefl a : codeUnitsBefore a a = false.
Proof.
  induction a as [|x a IH]; simpl; [done|].
  by rewrite N.ltb_irrefl, N.eqb_refl, IH.
Qed.

Lemma codeUnitsBefore_asym a b : codeUnitsBefore a b = true → codeUnitsBefore b a = false.
Proof.
  revert b. induction a as [|x a IH]; intros [|y b]; simpl; try done.
  destruct (N.ltb_spec x y) as [Hxy|Hxy]; simpl.
  - intros _. destruct (N.ltb_spec y x); [lia|]. simpl.
    by destruct (N.eqb_spec y x); [lia|].
  - destruct (N.eqb_spec x y) as [->|Hne]; simpl; [|done].
    intros H. by rewrite N.ltb_irrefl, N.eqb_refl, (IH _ H).
Qed.

Lemma codeUnitsBefore_total a b :
  codeUnitsBefore a b = false → a ≠ b → codeUnitsBefore b a = true.
Proof.
  revert b. induction a as [|x a IH]; intros [|y b]; simpl; try done.
  destruct (N.ltb_spec x y) as [Hxy|Hxy]; simpl; [done|].
  destruct (N.eqb_spec x y) as [->|Hne]; simpl.
  - intros H Hab. rewrite N.ltb_irrefl, N.eqb_refl. simpl.
    apply IH; [done|]. by intros ->.
  - intros _ _. destruct (N.ltb_spec y x); [done|lia].
Qed.

Lemma insertName_Permutation s l : insertName s l ≡ₚ s :: l.
Proof.
  induction l as [|t l IH]; simpl; [done|].
  destruct (codeUnitsBefore t s); [|done]. by rewrite IH, Permutation_swap.
Qed.

Lemma sortNames_Permutation l : sortNames l ≡ₚ l.
Proof.
  induction l as [|s l IH]; simpl; [done|].
  unfold sortNames in *. simpl. by rewrite insertName_Permutation, IH.
Qed.

Lemma insertName_HdRel t s l :
  codeUnitsBefore s t = false →
  HdRel (λ a b, codeUnitsBefore b a = false) t l →
  HdRel (λ a b, codeUnitsBefore b a = false) t (insertName s l).
Proof.
  intros Hts Hl. destruct l as [|u l]; simpl; [by constructor|].
  destruct (codeUnitsBefore u s); constructor; [|done].
  by inversion Hl.
Qed.

Lemma insertName_Sorted s l :
  Sorted (λ a b, codeUnitsBefore b a = false) l →
  Sorted (λ a b, codeUnitsBefore b a = false) (insertName s l).
Proof.
  induction l as [|t l IH]; simpl; intros Hl.
  - by repeat constructor.
  - apply Sorted_inv in Hl as [Hl Hhd].
    destruct (codeUnitsBefore t s) eqn:Hts.
    + constructor; [by apply IH|].
      apply insertName_HdRel; [by apply codeUnitsBefore_asym|done].
    + constructor; [by constructor|]. by constructor.
Qed.

Lemma sortNames_Sorted l : Sorted (λ a b, codeUnitsBefore b a = false) (sortNames l).
Proof.
  induction l as [|s l IH]; [constructor|]. by apply insertName_Sorted.
Qed.

Lemma Sorted_strict l :
  NoDup l →
  Sorted (λ a b, codeUnitsBefore b a = false) l →
  Sorted (λ a b, codeUnitsBefore a b = true) l.
Proof.
  induction l as [|a l IH]; intros Hnd Hs; [constructor|].
  apply NoDup_cons in Hnd as [Ha Hnd]. apply Sorted_inv in Hs as [Hs Hhd].
  constructor; [by apply IH|].
  destruct l as [|b l]; constructor.
  inversion Hhd; subst. apply codeUnitsBefore_total; [done|].
  intros ->. apply Ha. by left.
Qed.

Lemma getProjects_fresh host d hp :
  (getProjects host d {| historyPath := hp; cache := None |}).1 =
  sortNames (scanAllFiles host d false {| historyPath := hp; cache := None |}).1.*1.
Proof.
  unfold getProjects, ensureCache, scanAllFiles. simpl.
  by destruct (negb (historyExists d _)).
Qed.

(** X9: [getProjects] on a fresh scanner lists the project names of
    the default scan, each one once, in strictly increasing order of
    their UTF-16 code units. *)
Theorem getProjects_lists_each_name_in_order host d hp :
  let names := (getProjects host d {| historyPath := hp; cache := None |}).1 in
  names ≡ₚ (scanAllFiles host d false {| historyPath := hp; cache := None |}).1.*1 ∧
  NoDup names ∧
  Sorted (λ a b, codeUnitsBefore a b = true) names.
Proof.
  intros names. unfold names. rewrite getProjects_fresh.
  pose proof (scanAllFiles_wellKeyed host d false {| historyPath := hp; cache := None |})
    as [Hnd _].
  assert (Hnd' : NoDup (sortNames
            (scanAllFiles host d false {| historyPath := hp; cache := None |}).1.*1)).
  { by rewrite sortNames_Permutation. }
  split; [apply sortNames_Permutation|]. split; [done|].
  apply Sorted_strict; [done|apply sortNames_Sorted].
Qed.

(** ** The cache *)

(** X10: a scan of an existing history is what later queries answer
    from: whatever the disk holds when they are made, they read the
    index of that scan, made with the flag of that scan, and leave the
    scanner as it is. *)
Theorem queries_after_scan_ignore_disk host d d' showEmptyVersions this projectName filePath :
  historyExists d this = true →
  let idx := (scanAllFiles host d showEmptyVersions this).1 in
  let this1 := (scanAllFiles host d showEmptyVersions this).2 in
  getProjects host d' this1 = (sortNames idx.*1, this1) ∧
  getFilesForProject host d' projectName this1 =
    (default [] (files <$> Map_get projectName idx), this1) ∧
  getFileVersions host d' projectName filePath this1 =
    (default [] (versions <$> (Map_get projectName idx ≫= λ p, Map_get filePath (files p))),
     this1).
Proof.
  intros Hex idx this1. unfold idx, this1, scanAllFiles. rewrite Hex. simpl.
  unfold getFileVersions, getFilesForProject, getProjects, ensureCache. simpl.
  split; [done|].
  destruct (Map_get projectName _) as [p|]; simpl; [|done].
  split; [done|]. by destruct (Map_get filePath (files p)).
Qed.

Lemma queries_after_scan_ignore_disk_witness :
  (getFileVersions Fixture.posix Broken.store (js "bob") (js "home/bob/site/index.html")
     (scanAllFiles Fixture.posix Fixture.store false Fixture.scanner).2).1 = [] ∧
  (getFileVersions Fixture.posix Broken.store (js "bob") (js "home/bob/site/index.html")
     Fixture.scanner).1 = [].
Proof.
  split; [|by vm_compute].
  destruct (queries_after_scan_ignore_disk Fixture.posix Fixture.store Broken.store false
              Fixture.scanner (js "bob") (js "home/bob/site/index.html"))
    as (_ & _ & H); [by vm_compute|].
  rewrite H. by vm_compute.
Defined.

(** X11: a history root that does not exist is not cached: the query
    leaves the scanner without an index, and the next query looks at
    the disk again. *)
Theorem missing_history_is_not_cached host d d' hp projectName filePath :
  d hp = None →
  let this := {| historyPath := hp; cache := None |} in
  (getProjects host d this) = ([], this) ∧
  (getFileVersions host d projectName filePath this) = ([], this) ∧
  getFileVersions host d' projectName filePath (getProjects host d this).2 =
  getFileVersions host d' projectName filePath this.
Proof.
  intros Hd this.
  assert (Hex : historyExists d this = false).
  { unfold historyExists, existsSync. simpl. rewrite Hd. apply bool_decide_eq_false.
    by intros [? ?]. }
  unfold getFileVersions, getFilesForProject, getProjects, ensureCache. simpl.
  unfold scanAllFiles. rewrite Hex. simpl. done.
Qed.

Lemma missing_history_is_not_cached_witness :
  (getFileVersions Fixture.posix Fixture.store (js "alice") (js "home/alice/proj/app.py")
     (getProjects Fixture.posix (Fixture.diskOf []) Fixture.scanner).2).1 =
  [Fixture.version "a" "v2" 300; Fixture.version "b" "v3" 250; Fixture.version "a" "v1" 100].
Proof.
  destruct (missing_history_is_not_cached Fixture.posix (Fixture.diskOf []) Fixture.store
              (js "/h") (js "alice") (js "home/alice/proj/app.py"))
    as (_ & _ & H); [by vm_compute|].
  unfold Fixture.scanner. rewrite H. by vm_compute.
Defined.

(** ** The tree provider *)

(** X12: [refresh] shows the disk as it is: whatever index the scanner
    had cached, the file tree of a selected project becomes that
    project's files in a default scan of the current disk.  When no
    project is selected the file tree is left as it was. *)
Theorem refresh_rereads_the_disk host d this :
  let fresh := {| historyPath := historyPath (RecoveryTreeProvider.scanner this);
                  cache := None |} in
  (∀ project, RecoveryTreeProvider.selected this = Some project →
     RecoveryTreeProvider.fileTree (RecoveryTreeProvider.refresh host d this) =
     (getFilesForProject host d project fresh).1) ∧
  (RecoveryTreeProvider.selected this = None →
     RecoveryTreeProvider.fileTree (RecoveryTreeProvider.refresh host d this) =
     RecoveryTreeProvider.fileTree this).
Proof.
  intros fresh. unfold RecoveryTreeProvider.refresh. split.
  - intros project ->. unfold clearCache. fold fresh.
    assert (H : getFilesForProject host d project (scanAllFiles host d false fresh).2 =
                getFilesForProject host d project fresh).
    { unfold getFilesForProject, ensureCache, scanAllFiles.
      destruct (negb (historyExists d fresh)) eqn:Hex; simpl; [|done].
      by rewrite Hex. }
    rewrite H. by destruct (getFilesForProject host d project fresh).
  - by intros ->.
Qed.

Lemma refresh_rereads_the_disk_witness :
  let stale := {| RecoveryTreeProvider.scanner :=
                    {| historyPath := js "/h"; cache := Some [] |};
                  RecoveryTreeProvider.currentProject := Some (js "alice");
                  RecoveryTreeProvider.fileTree := [] |} in
  (RecoveryTreeProvider.fileTree
     (RecoveryTreeProvider.refresh Fixture.posix Fixture.store stale)).*1 =
  [js "home/alice/proj/app.py"].
Proof.
  intros stale.
  rewrite (proj1 (refresh_rereads_the_disk Fixture.posix Fixture.store stale) (js "alice"));
    by vm_compute.
Defined.

(** ** Showing empty versions *)

Lemma tryFolder_same_keys host d b1 b2 folderPath folderName jsonFile
    (idx1 idx2 : Index) :
  idx1.*1 = idx2.*1 →
  (tryFolder host d b1 folderPath folderName jsonFile idx1).*1 =
  (tryFolder host d b2 folderPath folderName jsonFile idx2).*1.
Proof.
  intros Hkeys. unfold tryFolder.
  destruct (readJSON d jsonFile) as [data|]; [|done].
  destruct (resource data) as [[|c r]|]; [done| |done].
  destruct (decodePath host (c :: r)) as [q|]; [|done].
  set (n := extractProjectName q).
  assert (Hhas : Map_has n idx1 = Map_has n idx2).
  { pose proof (Map_get_same_keys idx1 idx2 n Hkeys) as H. unfold Map_has.
    destruct (Map_get n idx1), (Map_get n idx2); try done.
    - discriminate (proj2 H eq_refl).
    - discriminate (proj1 H eq_refl). }
  set (idx1' := if Map_has n idx1 then idx1
                else Map_set n {| name := n; files := [] |} idx1).
  set (idx2' := if Map_has n idx2 then idx2
                else Map_set n {| name := n; files := [] |} idx2).
  assert (Hkeys' : idx1'.*1 = idx2'.*1).
  { unfold idx1', idx2'. rewrite Hhas. destruct (Map_has n idx2); [done|].
    by apply Map_set_same_keys. }
  pose proof (Map_get_same_keys idx1' idx2' n Hkeys') as Hn.
  destruct (Map_get n idx1') as [p1|], (Map_get n idx2') as [p2|]; try done.
  - destruct (entries data) as [es|]; [|done].
    rewrite !entryLoop_filter. by apply Map_set_same_keys.
  - discriminate (proj2 Hn eq_refl).
  - discriminate (proj1 Hn eq_refl).
Qed.

Lemma folderLoop_same_keys host d b1 b2 hp folders (idx1 idx2 : Index) :
  idx1.*1 = idx2.*1 →
  (folderLoop host d b1 hp folders idx1).*1 = (folderLoop host d b2 hp folders idx2).*1.
Proof.
  revert idx1 idx2. induction folders as [|g folders IH]; intros idx1 idx2 Hkeys; [done|].
  simpl. destruct (statSync d _) as [st|]; [|done].
  destruct (negb (isDirectory st)); [by apply IH|].
  destruct (negb (existsSync d _)); [by apply IH|].
  by apply IH, tryFolder_same_keys.
Qed.

(** X13: the flag [showEmptyVersions] never changes which projects a
    scan finds, nor their order in the index: it only decides which
    version records the files get. *)
Theorem showEmptyVersions_keeps_project_names host d this :
  (scanAllFiles host d true this).1.*1 = (scanAllFiles host d false this).1.*1.
Proof.
  unfold scanAllFiles. destruct (negb (historyExists d this)); simpl; [done|].
  destruct (readdirSync d (historyPath this)); [|done].
  by apply folderLoop_same_keys.
Qed.

(** ** Paths relative to the project *)










(** ** What the tree lists *)









(** ** Version navigation *)

Lemma exec_indexInBounds s c : indexInBounds s → indexInBounds (PreviewPanel.exec s c).
Proof.
  intros Hs. destruct c as [[f|]|[index|]| | |]; simpl; try done.
  - by left.
  - unfold PreviewPanel.selectVersion.
    destruct (PreviewPanel.currentVersions s) as [vs|] eqn:Hvs; [|done].
    destruct (Z.leb_spec 0 index); simpl; [|done].
    destruct (Z.ltb_spec index (Z.of_nat (length vs))); [|done].
    right. exists vs. unfold PreviewPanel.currentVersions in *. simpl. split; [done|lia].
  - unfold PreviewPanel.selectVersion. by destruct (PreviewPanel.currentVersions s).
  - unfold PreviewPanel.olderVersion.
    destruct (PreviewPanel.currentVersions s) as [vs|] eqn:Hvs; [|done].
    destruct (Z.ltb_spec (PreviewPanel.currentVersionIndex s) (Z.of_nat (length vs) - 1));
      [|done].
    right. exists vs. unfold PreviewPanel.currentVersions in *. simpl. split; [done|].
    destruct Hs as [Hs|(vs' & Hvs' & Hs)]; lia.
  - unfold PreviewPanel.newerVersion.
    destruct (PreviewPanel.currentVersions s) as [vs|] eqn:Hvs; [|done].
    destruct (Z.ltb_spec 0 (PreviewPanel.currentVersionIndex s)); [|done].
    destruct Hs as [Hs|(vs' & Hvs' & Hs)]; [lia|].
    right. exists vs. unfold PreviewPanel.currentVersions in *. simpl. split; [done|].
    rewrite Hvs in Hvs'. injection Hvs' as <-. lia.
  - by left.
Qed.

Lemma reachable_indexInBounds s : reachable s → indexInBounds s.
Proof.
  intros [cs ->].
  assert (H : ∀ s0, indexInBounds s0 → indexInBounds (foldl PreviewPanel.exec s0 cs)).
  { induction cs as [|c cs IH]; intros s0 Hs0; [done|].
    simpl. by apply IH, exec_indexInBounds. }
  apply H. by left.
Qed.

(** X16: whatever is done with the preview panel (files shown,
    versions selected by an integer or [NaN], older and newer steps,
    disposal), the version index stays [0] or a position in the version
    list of the file shown; with a non-empty list it always names one
    of its versions. *)
Theorem panel_index_stays_in_bounds cs :
  let s := foldl PreviewPanel.exec PreviewPanel.initial cs in
  indexInBounds s ∧
  ∀ vs, PreviewPanel.currentVersions s = Some vs → vs ≠ [] →
        is_Some (vs !! Z.to_nat (PreviewPanel.currentVersionIndex s)) ∧
        (0 ≤ PreviewPanel.currentVersionIndex s)%Z.
Proof.
  intros s. assert (Hs : indexInBounds s) by (apply reachable_indexInBounds; by exists cs).
  split; [done|]. intros vs Hvs Hne.
  rewrite lookup_lt_is_Some.
  destruct Hs as [->|(vs' & Hvs' & Hs)].
  - destruct vs; [done|]. simpl. split; lia.
  - rewrite Hvs in Hvs'. injection Hvs' as <-. split; lia.
Qed.

Lemma panel_index_witness :
  let vs := [Fixture.version "a" "v2" 300; Fixture.version "b" "v3" 250] in
  let file := {| PreviewPanel.filePath := Some (js "home/alice/proj/app.py");
                 PreviewPanel.versions := Some vs |} in
  let s := foldl PreviewPanel.exec PreviewPanel.initial
             [PreviewPanel.CreateOrShow (Some file); PreviewPanel.OlderVersion;
              PreviewPanel.OlderVersion; PreviewPanel.SelectVersion (Some 7%Z);
              PreviewPanel.SelectVersion None] in
  is_Some (vs !! Z.to_nat (PreviewPanel.currentVersionIndex s)).
Proof.
  intros vs file s.
  destruct (panel_index_stays_in_bounds
              [PreviewPanel.CreateOrShow (Some file); PreviewPanel.OlderVersion;
               PreviewPanel.OlderVersion; PreviewPanel.SelectVersion (Some 7%Z);
               PreviewPanel.SelectVersion None]) as [_ H].
  apply (H vs); [reflexivity|discriminate].
Defined.

(** X17: in a state the panel gets into, a step to the older version
    that moves is undone by a step to the newer one, and a step to the
    newer version that moves is undone by a step to the older one. *)
Theorem older_and_newer_undo_each_other s :
  reachable s →
  (PreviewPanel.olderVersion s ≠ s →
   PreviewPanel.newerVersion (PreviewPanel.olderVersion s) = s) ∧
  (PreviewPanel.newerVersion s ≠ s →
   PreviewPanel.olderVersion (PreviewPanel.newerVersion s) = s).
Proof.
  intros Hs%reachable_indexInBounds. destruct s as [cf idx].
  unfold PreviewPanel.olderVersion, PreviewPanel.newerVersion, indexInBounds,
    PreviewPanel.currentVersions in *. simpl in *.
  destruct (cf ≫= PreviewPanel.versions) as [vs|] eqn:Hvs; [|done]. split.
  - destruct (Z.ltb_spec idx (Z.of_nat (length vs) - 1)); [|done]. intros _. simpl.
    rewrite Hvs. destruct (Z.ltb_spec 0 (idx + 1)).
    + f_equal. lia.
    + destruct Hs as [->|(vs' & _ & Hs)]; lia.
  - destruct (Z.ltb_spec 0 idx); [|done]. intros _. simpl. rewrite Hvs.
    destruct Hs as [->|(vs' & [= <-] & Hs)]; [lia|].
    destruct (Z.ltb_spec (idx - 1) (Z.of_nat (length vs) - 1)); [|lia].
    f_equal. lia.
Qed.

Lemma older_and_newer_witness :
  let file := {| PreviewPanel.filePath := Some (js "home/alice/proj/app.py");
                 PreviewPanel.versions :=
                   Some [Fixture.version "a" "v2" 300; Fixture.version "b" "v3" 250] |} in
  let s := {| PreviewPanel.currentFile := Some file;
              PreviewPanel.currentVersionIndex := 0 |} in
  PreviewPanel.newerVersion (PreviewPanel.olderVersion s) = s.
Proof.
  intros file s.
  apply (older_and_newer_undo_each_other s).
  - exists [PreviewPanel.CreateOrShow (Some file)]. reflexivity.
  - simpl. discriminate.
Defined.

(** X18: in a state the panel gets into, the diff compares the version
    shown with the one a step to the older version would show, and has
    nothing to compare exactly when that step would not move. *)
Theorem showDiff_compares_with_the_older_step s :
  reachable s →
  (PreviewPanel.olderVersion s = s → PreviewPanel.showDiff s = None) ∧
  (PreviewPanel.olderVersion s ≠ s →
   PreviewPanel.showDiff s =
     Some (PreviewPanel.currentVersionIndex s,
           PreviewPanel.currentVersionIndex (PreviewPanel.olderVersion s)) ∧
   ∃ vs current older,
     PreviewPanel.currentVersions s = Some vs ∧
     vs !! Z.to_nat (PreviewPanel.currentVersionIndex s) = Some current ∧
     vs !! S (Z.to_nat (PreviewPanel.currentVersionIndex s)) = Some older).
Proof.
  intros Hs%reachable_indexInBounds. destruct s as [cf idx].
  unfold PreviewPanel.olderVersion, PreviewPanel.showDiff, indexInBounds,
    PreviewPanel.currentVersions in *. simpl in *.
  destruct (cf ≫= PreviewPanel.versions) as [vs|] eqn:Hvs; [|done].
  assert (Hidx : (0 ≤ idx)%Z ∧ (idx = 0 ∨ idx < Z.of_nat (length vs))%Z).
  { destruct Hs as [->|(vs' & [= <-] & Hs)]; lia. }
  destruct (Z.ltb_spec idx (Z.of_nat (length vs) - 1)) as [Hlt|Hge]; simpl; split.
  - intros [= Heq]. lia.
  - intros _. destruct (Z.ltb_spec (Z.of_nat (length vs)) 2); [lia|].
    rewrite Z.min_l by lia. destruct (Z.eqb_spec idx (idx + 1)); [lia|].
    split; [done|].
    destruct (lookup_lt_is_Some_2 vs (Z.to_nat idx)) as [current Hc]; [lia|].
    destruct (lookup_lt_is_Some_2 vs (S (Z.to_nat idx))) as [older Ho]; [lia|].
    by exists vs, current, older.
  - intros _. destruct (Z.ltb_spec (Z.of_nat (length vs)) 2); [done|].
    rewrite Z.min_r by lia.
    destruct (Z.eqb_spec idx (Z.of_nat (length vs) - 1)); [done|lia].
  - done.
Qed.

Lemma showDiff_witness :
  let file := {| PreviewPanel.filePath := Some (js "home/alice/proj/app.py");
                 PreviewPanel.versions :=
                   Some [Fixture.version "a" "v2" 300; Fixture.version "b" "v3" 250] |} in
  let s := {| PreviewPanel.currentFile := Some file;
              PreviewPanel.currentVersionIndex := 0 |} in
  PreviewPanel.showDiff s = Some (0, 1)%Z.
Proof.
  intros file s.
  destruct (showDiff_compares_with_the_older_step s) as [_ H].
  - exists [PreviewPanel.CreateOrShow (Some file)]. reflexivity.
  - destruct H as [H _]; [simpl; discriminate|]. exact H.
Defined.

(** ** The identity of the maps the scanner hands out *)

(** X19: by reference, with a history root that exists: asking again
    for a project of the index returns the very [Map] object the first
    call returned and writes nothing, whatever the disk has become;
    asking again for an unknown project allocates another empty [Map],
    distinct from the one returned before. *)
Theorem getFilesForProject_twice host d d' hp projectName h0 :
  existsSync d hp = true →
  let idx := (scanAllFiles host d false {| historyPath := hp; cache := None |}).1 in
  ∃ fl this1 h1 fl' h2,
    Ref.getFilesForProject host d projectName
      {| Ref.historyPath := hp; Ref.cache := None |} h0 = (Normal (fl, this1), h1) ∧
    Ref.getFilesForProject host d' projectName this1 h1 = (Normal (fl', this1), h2) ∧
    if Map_has projectName idx
    then fl' = fl ∧ h2 = h1
    else fl' ≠ fl ∧ fl' = length h1 ∧ h2 = h1 ++ [Ref.OFiles []].
Proof.
  intros Hex idx.
  destruct (Ref_scanAllFiles_spec host d false hp None None h0) as (h' & Hrun & Hrep & _).
  rewrite Hex in Hrun. fold idx in Hrep.
  destruct Hrep as (_ & pm & HP & Hkeys & _ & Hcells).
  set (this1 := {| Ref.historyPath := hp; Ref.cache := Some (length h0) |}) in *.
  assert (Hfirst : ∀ k : Ref.HistoryScanner → Ref.M (Ref.loc * Ref.HistoryScanner),
            Ref.bind (Ref.ensureCache host d {| Ref.historyPath := hp; Ref.cache := None |})
              k h0 = k this1 h').
  { intros k. unfold Ref.ensureCache. simpl. unfold Ref.bind at 1 2. by rewrite Hrun. }
  unfold Ref.getFilesForProject at 1. rewrite Hfirst. simpl.
  rewrite (bind_readIndex _ pm) by done.
  unfold Map_has.
  destruct (Map_get projectName idx) as [p|] eqn:Hp.
  - assert (Hpl : is_Some (Map_get projectName pm)).
    { destruct (Map_get projectName pm) eqn:Hpm; [done|].
      apply (Map_get_same_keys pm idx) in Hpm; [congruence|done]. }
    destruct Hpl as [pl Hpl]. rewrite Hpl.
    destruct (Hcells _ _ _ Hpl Hp) as (_ & fl & fm & -> & _ & Hproj & _).
    rewrite (bind_readProject _ projectName fl) by done.
    exists fl, this1, h', fl, h'. split; [done|]. split.
    + unfold Ref.getFilesForProject, Ref.ensureCache. simpl. rewrite bind_ret. simpl.
      rewrite (bind_readIndex _ pm) by done. rewrite Hpl.
      by rewrite (bind_readProject _ projectName fl).
    + rewrite bool_decide_eq_true_2 by eauto. done.
  - assert (Hpl : Map_get projectName pm = None).
    { by apply (Map_get_same_keys pm idx). }
    rewrite Hpl, bind_alloc.
    exists (length h'), this1, (h' ++ [Ref.OFiles []]),
           (length (h' ++ [Ref.OFiles []])), ((h' ++ [Ref.OFiles []]) ++ [Ref.OFiles []]).
    split; [done|]. split.
    + unfold Ref.getFilesForProject, Ref.ensureCache. simpl. rewrite bind_ret. simpl.
      rewrite (bind_readIndex _ pm) by (by apply lookup_app_l_Some).
      by rewrite Hpl, bind_alloc.
    + rewrite bool_decide_eq_false_2 by (by intros [? ?]).
      split; [|done]. rewrite length_app. simpl. lia.
Qed.

Lemma getFilesForProject_twice_witness :
  ∃ fl this1 h1,
    Ref.getFilesForProject Fixture.posix Fixture.store (js "alice")
      {| Ref.historyPath := js "/h"; Ref.cache := None |} [] = (Normal (fl, this1), h1) ∧
    Ref.getFilesForProject Fixture.posix Broken.store (js "alice") this1 h1 =
      (Normal (fl, this1), h1).
Proof.
  destruct (getFilesForProject_twice Fixture.posix Fixture.store Broken.store (js "/h")
              (js "alice") []) as (fl & this1 & h1 & fl' & h2 & H1 & H2 & H3);
    [by vm_compute|].
  assert (Hhas : Map_has (js "alice")
            (scanAllFiles Fixture.posix Fixture.store false
               {| historyPath := js "/h"; cache := None |}).1 = true) by (by vm_compute).
  rewrite Hhas in H3. destruct H3 as [-> ->].
  by exists fl, this1, h1.
Defined.

(** ** Showing empty versions only adds *)

Lemma storeVersions_get_self host q vs p f :
  Map_get q (files (storeVersions host q vs p)) = Some f →
  (vs ≠ [] ∨ is_Some (Map_get q (files p))) ∧
  ∀ v, v ∈ versions f ↔
       v ∈ vs ∨ ∃ f0, Map_get q (files p) = Some f0 ∧ v ∈ versions f0.
Proof.
  unfold storeVersions. destruct vs as [|v0 vs].
  { intros Hf. split; [right; eauto|]. intros v. split; [right; eauto|].
    intros [H|(f0 & Hf0 & Hv)]; [by apply elem_of_nil in H|]. congruence. }
  remember (sortVersions host (v0 :: vs)) as new eqn:Hnew.
  assert (Hperm : new ≡ₚ v0 :: vs) by (subst new; apply sortVersions_Permutation).
  destruct (Map_get q (files p)) as [f0|] eqn:Hf0; simpl.
  - rewrite Map_get_set_eq. intros [= <-]. split; [by left|]. intros v. simpl.
    rewrite sortVersions_Permutation, elem_of_app, Hperm. split.
    + intros [?|?]; [right; eauto|by left].
    + intros [?|(f1 & [= <-] & ?)]; [by right|by left].
  - destruct new as [|w new]; [by apply Permutation_nil_cons in Hperm|]. simpl.
    rewrite Map_get_set_eq. intros [= <-]. split; [by left|]. intros v. simpl.
    rewrite Hperm. split; [by left|]. by intros [?|(f1 & ? & _)].
Qed.

Lemma storeVersions_get_is_Some host q vs p :
  vs ≠ [] ∨ is_Some (Map_get q (files p)) →
  is_Some (Map_get q (files (storeVersions host q vs p))).
Proof.
  unfold storeVersions. destruct vs as [|v0 vs].
  { by intros [?|?]. }
  intros _. remember (sortVersions host (v0 :: vs)) as new eqn:Hnew.
  destruct (Map_get q (files p)) as [f0|]; simpl.
  - rewrite Map_get_set_eq. eauto.
  - destruct new as [|w new].
    + symmetry in Hnew. by apply sortVersions_nil_inv in Hnew.
    + simpl. rewrite Map_get_set_eq. eauto.
Qed.

Lemma skipEntry_showing_empty host d folderPath e :
  skipEntry host d true folderPath e = true → skipEntry host d false folderPath e = true.
Proof.
  unfold skipEntry. destruct (e_id e) as [i|]; [|done].
  destruct (e_timestamp e) as [t|]; [|done].
  destruct (bool_decide (i = [])); [done|]. destruct (isZero t); [done|]. simpl.
  by destruct (d (join host folderPath i)).
Qed.

Lemma covered_ensure n (idx1 idx2 : Index) :
  Map_has n idx1 = Map_has n idx2 →
  covered idx1 idx2 →
  covered (if Map_has n idx1 then idx1 else Map_set n {| name := n; files := [] |} idx1)
          (if Map_has n idx2 then idx2 else Map_set n {| name := n; files := [] |} idx2).
Proof.
  intros <- Hcov. destruct (Map_has n idx1); [done|].
  intros n' p1 q f1. destruct (decide (n = n')) as [<-|Hn].
  - rewrite Map_get_set_eq. by intros [= <-].
  - rewrite !Map_get_set_ne by done. apply Hcov.
Qed.

Lemma tryFolder_covered host d folderPath folderName jsonFile (idx1 idx2 : Index) :
  idx1.*1 = idx2.*1 →
  covered idx1 idx2 →
  covered (tryFolder host d false folderPath folderName jsonFile idx1)
          (tryFolder host d true folderPath folderName jsonFile idx2).
Proof.
  intros Hkeys Hcov. unfold tryFolder.
  destruct (readJSON d jsonFile) as [data|]; [|done].
  destruct (resource data) as [[|c r]|]; [done| |done].
  destruct (decodePath host (c :: r)) as [q|]; [|done].
  set (n := extractProjectName q).
  assert (Hhas : Map_has n idx1 = Map_has n idx2).
  { pose proof (Map_get_same_keys idx1 idx2 n Hkeys) as H. unfold Map_has.
    destruct (Map_get n idx1), (Map_get n idx2); try done.
    - discriminate (proj2 H eq_refl).
    - discriminate (proj1 H eq_refl). }
  pose proof (covered_ensure n idx1 idx2 Hhas Hcov) as Hcov'.
  assert (Hkeys' :
    (if Map_has n idx1 then idx1 else Map_set n {| name := n; files := [] |} idx1).*1 =
    (if Map_has n idx2 then idx2 else Map_set n {| name := n; files := [] |} idx2).*1).
  { rewrite Hhas. destruct (Map_has n idx2); [done|]. by apply Map_set_same_keys. }
  set (idx1' := if Map_has n idx1 then idx1
                else Map_set n {| name := n; files := [] |} idx1) in *.
  set (idx2' := if Map_has n idx2 then idx2
                else Map_set n {| name := n; files := [] |} idx2) in *.
  pose proof (Map_get_same_keys idx1' idx2' n Hkeys') as Hn.
  destruct (Map_get n idx1') as [p1|] eqn:Hp1, (Map_get n idx2') as [p2|] eqn:Hp2;
    try done.
  2: { discriminate (proj2 Hn eq_refl). }
  2: { discriminate (proj1 Hn eq_refl). }
  destruct (entries data) as [es|]; [|done].
  rewrite !entryLoop_filter. simpl.
  set (vs1 := recordOf host folderPath folderName <$>
                filter (λ e, skipEntry host d false folderPath e = false) es).
  set (vs2 := recordOf host folderPath folderName <$>
                filter (λ e, skipEntry host d true folderPath e = false) es).
  assert (Hsub : ∀ v, v ∈ vs1 → v ∈ vs2).
  { intros v (e & -> & [He Hes]%list_elem_of_filter)%list_elem_of_fmap.
    apply list_elem_of_fmap. exists e. split; [done|]. apply list_elem_of_filter.
    split; [|done]. destruct (skipEntry host d true folderPath e) eqn:Ht; [|done].
    apply skipEntry_showing_empty in Ht. congruence. }
  intros n' p1' q' f1. destruct (decide (n = n')) as [<-|Hne].
  2: { rewrite !Map_get_set_ne by done. apply Hcov'. }
  rewrite !Map_get_set_eq. intros [= <-] Hf1. exists (storeVersions host q vs2 p2).
  destruct (decide (q = q')) as [<-|Hq].
  - apply storeVersions_get_self in Hf1 as [Hsome Hv1].
    destruct (storeVersions_get_is_Some host q vs2 p2) as [f2 Hf2].
    { destruct Hsome as [Hne|[f0 Hf0]].
      - left. destruct vs1 as [|v vs1']; [done|]. intros Hnil.
        specialize (Hsub v (list_elem_of_here _ _)). rewrite Hnil in Hsub.
        by apply elem_of_nil in Hsub.
      - right. destruct (Hcov' n p1 q f0 Hp1 Hf0) as (p2' & f2 & Hp2' & Hf2 & _).
        rewrite Hp2 in Hp2'. injection Hp2' as <-. eauto. }
    exists f2. split; [done|]. split; [done|]. intros v Hv.
    apply (storeVersions_get_self _ _ _ _ _ Hf2). apply Hv1 in Hv as [Hv|(f0 & Hf0 & Hv)].
    + left. by apply Hsub.
    + right. destruct (Hcov' n p1 q f0 Hp1 Hf0) as (p2' & f2' & Hp2' & Hf2' & Hvs).
      rewrite Hp2 in Hp2'. injection Hp2' as <-. exists f2'. split; [done|by apply Hvs].
  - rewrite storeVersions_get_ne in Hf1 by done.
    destruct (Hcov' n p1 q' f1 Hp1 Hf1) as (p2' & f2 & Hp2' & Hf2 & Hvs).
    rewrite Hp2 in Hp2'. injection Hp2' as <-.
    exists f2. split; [done|]. by rewrite storeVersions_get_ne.
Qed.

Lemma folderLoop_covered host d hp folders (idx1 idx2 : Index) :
  idx1.*1 = idx2.*1 →
  covered idx1 idx2 →
  covered (folderLoop host d false hp folders idx1) (folderLoop host d true hp folders idx2).
Proof.
  revert idx1 idx2. induction folders as [|g folders IH]; intros idx1 idx2 Hkeys Hcov;
    [done|].
  simpl. destruct (statSync d _) as [st|]; [|done].
  destruct (negb (isDirectory st)); [by apply IH|].
  destruct (negb (existsSync d _)); [by apply IH|].
  apply IH; [by apply tryFolder_same_keys|by apply tryFolder_covered].
Qed.

(** X20: showing empty versions only adds.  Every file the default
    scan finds is found by a scan that shows empty versions, in the
    same project, and every version the default scan lists for it is
    listed for it there as well. *)
Theorem showEmptyVersions_only_adds host d this n p q f :
  Map_get n (scanAllFiles host d false this).1 = Some p →
  Map_get q (files p) = Some f →
  ∃ p' f',
    Map_get n (scanAllFiles host d true this).1 = Some p' ∧
    Map_get q (files p') = Some f' ∧
    ∀ v, v ∈ versions f → v ∈ versions f'.
Proof.
  assert (Hcov : covered (scanAllFiles host d false this).1 (scanAllFiles host d true this).1).
  { unfold scanAllFiles. destruct (negb (historyExists d this)); simpl; [by intros ? ? ? ?|].
    destruct (readdirSync d (historyPath this)); [|by intros ? ? ? ?].
    apply folderLoop_covered; [done|by intros ? ? ? ?]. }
  apply Hcov.
Qed.

Lemma showEmptyVersions_only_adds_witness :
  ∃ p' f',
    Map_get (js "alice") (scanAllFiles Fixture.posix Fixture.store true Fixture.scanner).1
      = Some p' ∧
    Map_get (js "home/alice/proj/app.py") (files p') = Some f' ∧
    Fixture.version "b" "v3" 250 ∈ versions f'.
Proof.
  destruct (showEmptyVersions_only_adds Fixture.posix Fixture.store Fixture.scanner
              (js "alice")
              {| name := js "alice";
                 files := [(js "home/alice/proj/app.py",
                            {| originalPath := js "home/alice/proj/app.py";
                               versions := [Fixture.version "a" "v2" 300;
                                            Fixture.version "b" "v3" 250;
                                            Fixture.version "a" "v1" 100];
                               latestTimestamp := Some 300%Z |})] |}
              (js "home/alice/proj/app.py")
              {| originalPath := js "home/alice/proj/app.py";
                 versions := [Fixture.version "a" "v2" 300;
                              Fixture.version "b" "v3" 250;
                              Fixture.version "a" "v1" 100];
                 latestTimestamp := Some 300%Z |})
    as (p' & f' & Hp' & Hf' & Hv).
  - by vm_compute.
  - by vm_compute.
  - exists p', f'. split; [done|]. split; [done|]. apply Hv. simpl. right. by left.
Defined.

(** ** Names of the listing that are not snapshot folders *)

Lemma folderLoop_inert_head host d showEmptyVersions hp g post idx :
  is_Some (d (join host hp g)) →
  folderEvent host d showEmptyVersions hp g = None →
  folderLoop host d showEmptyVersions hp (g :: post) idx =
  folderLoop host d showEmptyVersions hp post idx.
Proof.
  intros [st Hst] Hev. simpl. unfold statSync. rewrite Hst.
  destruct st as [b json|b l]; simpl; [done|].
  destruct (negb (existsSync d _)); [done|].
  rewrite tryFolder_record by eauto. by rewrite Hev.
Qed.

Lemma folderLoop_inert host d showEmptyVersions hp pre g post idx :
  is_Some (d (join host hp g)) →
  folderEvent host d showEmptyVersions hp g = None →
  folderLoop host d showEmptyVersions hp (pre ++ g :: post) idx =
  folderLoop host d showEmptyVersions hp (pre ++ post) idx.
Proof.
  intros Hst Hev. revert idx. induction pre as [|g' pre IH]; intros idx.
  - by apply folderLoop_inert_head.
  - simpl. destruct (statSync d _) as [st|]; [|done].
    destruct (negb (isDirectory st)); [by apply IH|].
    destruct (negb (existsSync d _)); by apply IH.
Qed.

(** X21: a name of the listing that can be examined but is no
    snapshot folder (a plain file, or a directory whose manifest is
    missing, unreadable, without a resource, or with a resource that
    does not decode) leaves no trace: the index is the one the other
    names of the listing build. *)
Theorem names_that_are_no_snapshot_folders_leave_no_trace
    host d showEmptyVersions this pre g post :
  historyExists d this = true →
  readdirSync d (historyPath this) = Normal (pre ++ g :: post) →
  is_Some (d (join host (historyPath this) g)) →
  folderEvent host d showEmptyVersions (historyPath this) g = None →
  (scanAllFiles host d showEmptyVersions this).1 =
  folderLoop host d showEmptyVersions (historyPath this) (pre ++ post) [].
Proof.
  intros Hex Hdir Hst Hev. unfold scanAllFiles. rewrite Hex, Hdir. simpl.
  by apply folderLoop_inert.
Qed.

Lemma names_that_are_no_snapshot_folders_witness :
  (scanAllFiles Fixture.posix Fixture.store false Fixture.scanner).1 =
  folderLoop Fixture.posix Fixture.store false (js "/h") [js "a"; js "b"; js "c"] [].
Proof.
  apply (names_that_are_no_snapshot_folders_leave_no_trace Fixture.posix Fixture.store
           false Fixture.scanner [js "a"; js "b"; js "c"] (js "notes.txt") []).
  - by vm_compute.
  - by vm_compute.
  - eexists. vm_compute. reflexivity.
  - by vm_compute.
Defined.

(** ** The order in which folders are stored *)







(** ** The project picker *)

Lemma setProject_cached host d p tp c :
  cache (RecoveryTreeProvider.scanner tp) = Some c →
  RecoveryTreeProvider.setProject host d p tp =
  {| RecoveryTreeProvider.scanner := RecoveryTreeProvider.scanner tp;
     RecoveryTreeProvider.currentProject := Some p;
     RecoveryTreeProvider.fileTree := filesIn c p |}.
Proof.
  intros Hc. unfold RecoveryTreeProvider.setProject, getFilesForProject, ensureCache, filesIn.
  rewrite Hc. simpl. rewrite Hc. by destruct (Map_get p c).
Qed.

Lemma selectProject_items host d c s projects tp0 items0 :
  cache s = Some c → RecoveryTreeProvider.scanner tp0 = s →
  foldl (λ '(tp, items) project,
           let tp := RecoveryTreeProvider.setProject host d project tp in
           (tp, items ++ [(project, length (RecoveryTreeProvider.fileTree tp))]))
        (tp0, items0) projects =
  (match last projects with
   | Some p => {| RecoveryTreeProvider.scanner := s;
                  RecoveryTreeProvider.currentProject := Some p;
                  RecoveryTreeProvider.fileTree := filesIn c p |}
   | None => tp0
   end,
   items0 ++ ((λ p, (p, length (filesIn c p))) <$> projects)).
Proof.
  intros Hc. revert tp0 items0.
  induction projects as [|p ps IH]; intros tp0 items0 Hs.
  - simpl. by rewrite app_nil_r.
  - cbn [foldl]. rewrite (setProject_cached host d p tp0 c) by (by rewrite Hs).
    cbn [RecoveryTreeProvider.fileTree].
    rewrite IH by done. rewrite Hs, <- app_assoc. f_equal.
    destruct ps as [|p' ps]; [done|].
    change (last (p :: p' :: ps)) with (last (p' :: ps)).
    destruct (last (p' :: ps)) eqn:Hl; [done|].
    by apply last_None in Hl.
Qed.

(** X23: [selectProject] counts the files of every project by
    selecting each in turn, and reads the selection to restore after
    that.  So the items it offers carry each project's file count in
    the cached index, and when the pick is dismissed the provider is
    left on the last project of the sorted list with that project's
    files, whatever was selected before. *)
Theorem selectProject_dismissed_keeps_last_project host d d' tp :
  let projects := (getProjects host d (RecoveryTreeProvider.scanner tp)).1 in
  let c := default [] (cache (ensureCache host d (RecoveryTreeProvider.scanner tp))) in
  let r := Extension.selectProject host d d' None tp in
  projects ≠ [] →
  RecoveryTreeProvider.currentProject r.1 = last projects ∧
  RecoveryTreeProvider.fileTree r.1 = from_option (filesIn c) [] (last projects) ∧
  r.2 = (λ p, (p, length (filesIn c p))) <$> projects.
Proof.
  intros projects c r Hne. unfold r, Extension.selectProject. unfold projects, c in *.
  clear projects c r. unfold getProjects in *. simpl in *.
  set (s := ensureCache host d (RecoveryTreeProvider.scanner tp)) in *.
  destruct (cache s) as [c|] eqn:Hc; [|done]. simpl.
  destruct (sortNames c.*1) as [|p ps] eqn:Hps; [done|].
  rewrite (selectProject_items host d c s (p :: ps)) by done.
  destruct (last (p :: ps)) as [l|] eqn:Hl; [|by apply last_None in Hl].
  unfold RecoveryTreeProvider.selected. simpl.
  destruct l as [|x l]; [done|].
  by rewrite (setProject_cached host d' (x :: l) _ c).
Qed.

Lemma selectProject_dismissed_witness :
  let tp := {| RecoveryTreeProvider.scanner := Fixture.scanner;
               RecoveryTreeProvider.currentProject := Some (js "alice");
               RecoveryTreeProvider.fileTree := [] |} in
  let r := Extension.selectProject Fixture.posix Fixture.store Fixture.store None tp in
  RecoveryTreeProvider.currentProject r.1 = Some (js "bob") ∧
  r.2 = [(js "alice", 1%nat); (js "bob", 0%nat)].
Proof.
  intros tp r.
  destruct (selectProject_dismissed_keeps_last_project Fixture.posix Fixture.store
              Fixture.store tp) as (H1 & _ & H3); [by vm_compute|].
  fold r in H1, H3. rewrite H1, H3. by vm_compute.
Defined.
